(** * NETFLIX-CLONE-CLIENT: the API client, the query hooks and the routes

    A shallow embedding of the data layer of the front-end:
    - [lib/api]          the axios instance with its two interceptors,
    - [hooks/useMovies]  the movie query hooks,
    - [hooks/useWatchlist] the watchlist query and its two mutations,
    - [routes/*]         what the pages do with the query results.

    Asynchronous code is written in a promise monad over an explicit
    [world]: the module variable [getTokenFunction], the query cache of the
    QueryClient, the backend (an oracle answering requests) and the trace of
    observable effects (requests put on the wire, console output, toasts,
    cache invalidations). *)

From Stdlib Require Import ZArith List String Ascii Bool.
From Stdlib Require Import DecimalString DecimalPos DecimalN DecimalZ Lia.
Import ListNotations.
Set Warnings "-register-all".
Local Open Scope string_scope.
Local Open Scope Z_scope.

(* ===================================================================== *)
(** ** JavaScript values *)
(* ===================================================================== *)

Module JS.

(** Numbers are IEEE doubles.  This code tests them for truth, prints them
    into URLs and links, compares them and puts them into query keys, so a
    number is kept in the form these operations read:
    - [Num z] is a number whose value is the integer [z]; the integers that
      are doubles have at most 53 significant bits and lie below 2^1024, and
      [of_integer] sends every integer to the nearest of them.  [Num 0]
      stands for both zeros (both are falsy, both print as "0" and both are
      hashed as 0);
    - [Frac negative digits n] is a finite number that is not an integer, in
      the terms of Number::toString: [digits] are the digits of its shortest
      decimal form, without leading or trailing zero, and [n] is the
      exponent, the value being 0.[digits] times 10^[n]. *)
Inductive number : Type :=
| NaN
| Infinity (negative : bool)
| Num (z : Z)
| Frac (negative : bool) (digits : Decimal.uint) (n : Z).

Inductive value : Type :=
| VUndefined
| VNull
| VBool (b : bool)
| VNum (n : number)
| VStr (s : string)
| VArr (items : list value)
| VObj (fields : list (string * value)).

(** ToBoolean *)
Definition number_truthy (n : number) : bool :=
  match n with
  | NaN => false
  | Infinity _ => true
  | Num z => negb (z =? 0)
  | Frac _ _ _ => true
  end.

Definition string_truthy (s : string) : bool :=
  match s with
  | EmptyString => false
  | String _ _ => true
  end.

Definition truthy (v : value) : bool :=
  match v with
  | VUndefined | VNull => false
  | VBool b => b
  | VNum n => number_truthy n
  | VStr s => string_truthy s
  | VArr _ | VObj _ => true
  end.

(** [a || b] *)
Definition or_else (a b : value) : value := if truthy a then a else b.

(** [a === b] on numbers: NaN equals nothing. *)
Definition number_eqb (a b : number) : bool :=
  match a, b with
  | Infinity x, Infinity y => Bool.eqb x y
  | Num x, Num y => x =? y
  | Frac x d n, Frac y d' n' =>
      (Bool.eqb x y && Decimal.uint_beq d d' && (n =? n'))%bool
  | _, _ => false
  end.

(** *** The doubles among the integers *)

(** Below 2^53 every integer is a double. *)
Definition safe_limit : Z := 9007199254740992.

(** 2^1024: what rounds up to it is infinite. *)
Definition overflow_limit : Z := 2 ^ 1024.

(** The double nearest to a non-negative integer, ties to the even
    significand: the 53 leading bits are kept. *)
Definition round_magnitude (a : Z) : Z :=
  if a <? safe_limit then a
  else
    let shift := Z.log2 a - 52 in
    let q := Z.shiftr a shift in
    let r := a - Z.shiftl q shift in
    let half := Z.shiftl 1 (shift - 1) in
    let up := ((half <? r) || ((r =? half) && Z.odd q))%bool in
    Z.shiftl (if up then q + 1 else q) shift.

(** The Number value of a mathematical integer. *)
Definition of_integer (z : Z) : number :=
  let a := round_magnitude (Z.abs z) in
  if overflow_limit <=? a then Infinity (z <? 0) else Num (Z.sgn z * a).

(** [inside a c]: the integer [c] rounds to the double [a], for [a] from
    2^53 on.  The doubles next to [a] are one unit in the last place away,
    half a unit below a power of two; the midpoints belong to the double
    whose significand is even. *)
Definition inside (a c : Z) : bool :=
  let ulp := Z.shiftl 1 (Z.log2 a - 52) in
  let m := a / ulp in
  let below := if m =? 4503599627370496 then ulp / 2 else ulp in
  if Z.even m
  then ((2 * a - below <=? 2 * c) && (2 * c <=? 2 * a + ulp))%bool
  else ((2 * a - below <? 2 * c) && (2 * c <? 2 * a + ulp))%bool.

(** The decimal with the fewest digits that rounds to [a]: the multiples of
    10^p next to [a] are tried from the largest [p] down; of two that fit,
    the nearer one, the even one when they are equally near. *)
Fixpoint shortest_from (p : nat) (a : Z) : Z :=
  let pw := 10 ^ Z.of_nat p in
  let lo := (a / pw) * pw in
  let hi := lo + pw in
  let okl := ((0 <? lo) && inside a lo)%bool in
  let okh := inside a hi in
  let next := match p with O => a | S p' => shortest_from p' a end in
  if (okl && okh)%bool then
    if a - lo <? hi - a then lo
    else if hi - a <? a - lo then hi
    else if Z.even (a / pw) then lo else hi
  else if okl then lo
  else if okh then hi
  else next.

(** The digits and the exponent of Number::toString for a double [a] from
    2^53 on. *)
Definition shortest (a : Z) : Decimal.uint * Z :=
  let places := Decimal.nb_digits (Pos.to_uint (Z.to_pos a)) in
  let d := Pos.to_uint (Z.to_pos (shortest_from places a)) in
  (fst (Decimal.nztail d), Z.of_nat (Decimal.nb_digits d)).

(** *** Number::toString *)

Fixpoint zeros (n : nat) : string :=
  match n with
  | O => EmptyString
  | S k => String "0" (zeros k)
  end.

Fixpoint take (n : nat) (s : string) : string :=
  match n, s with
  | S k, String c rest => String c (take k rest)
  | _, _ => EmptyString
  end.

Fixpoint drop (n : nat) (s : string) : string :=
  match n, s with
  | S k, String _ rest => drop k rest
  | _, _ => s
  end.

Definition exponent_part (e : Z) : string :=
  "e" ++ (if e <? 0 then "-" else "+")
      ++ NilZero.string_of_uint (N.to_uint (Z.to_N (Z.abs e))).

(** The decimal 0.[digits] times 10^[n], as Number::toString lays it out:
    an integer of up to 21 places, a decimal point inside the digits, up to
    six zeros after the point, and the exponent form otherwise. *)
Definition format_decimal (digits : Decimal.uint) (n : Z) : string :=
  let s := NilEmpty.string_of_uint digits in
  let k := Z.of_nat (String.length s) in
  if ((k <=? n) && (n <=? 21))%bool then s ++ zeros (Z.to_nat (n - k))
  else if ((0 <? n) && (n <=? 21))%bool then
    take (Z.to_nat n) s ++ "." ++ drop (Z.to_nat n) s
  else if ((-6 <? n) && (n <=? 0))%bool then
    "0." ++ zeros (Z.to_nat (- n)) ++ s
  else if k =? 1 then s ++ exponent_part (n - 1)
  else take 1 s ++ "." ++ drop 1 s ++ exponent_part (n - 1).

Definition minus_sign (negative : bool) : string :=
  if negative then "-" else "".

Definition number_to_string (n : number) : string :=
  match n with
  | NaN => "NaN"
  | Infinity negative => minus_sign negative ++ "Infinity"
  | Num z =>
      if Z.abs z <? safe_limit then NilZero.string_of_int (Z.to_int z)
      else
        match of_integer z with
        | Num z' =>
            let '(digits, n) := shortest (Z.abs z') in
            minus_sign (z' <? 0) ++ format_decimal digits n
        | _ => minus_sign (z <? 0) ++ "Infinity"
        end
  | Frac negative digits n => minus_sign negative ++ format_decimal digits n
  end.

Fixpoint join (sep : string) (l : list string) : string :=
  match l with
  | [] => ""
  | [s] => s
  | s :: rest => s ++ sep ++ join sep rest
  end.

(** ToString, as a template literal applies it. *)
Fixpoint to_string (v : value) : string :=
  match v with
  | VUndefined => "undefined"
  | VNull => "null"
  | VBool true => "true"
  | VBool false => "false"
  | VNum n => number_to_string n
  | VStr s => s
  | VArr items =>
      join ","
        ((fix each (l : list value) : list string :=
            match l with
            | [] => []
            | VUndefined :: rest => "" :: each rest
            | VNull :: rest => "" :: each rest
            | x :: rest => to_string x :: each rest
            end) items)
  | VObj _ => "[object Object]"
  end.

Fixpoint assoc {A : Type} (k : string) (l : list (string * A)) : option A :=
  match l with
  | [] => None
  | (k', v) :: rest => if String.eqb k k' then Some v else assoc k rest
  end.

(** Own-property read [o\[k\]] on a value that is not null or undefined:
    objects answer with the field, everything else with undefined (none of
    the names read by this code is a built-in of strings or arrays). *)
Definition field (k : string) (v : value) : value :=
  match v with
  | VObj fields =>
      match assoc k fields with
      | Some x => x
      | None => VUndefined
      end
  | _ => VUndefined
  end.

Definition nullish (v : value) : bool :=
  match v with
  | VUndefined | VNull => true
  | _ => false
  end.

(** [v?.k] *)
Definition opt_field (k : string) (v : value) : value :=
  if nullish v then VUndefined else field k v.

(** *** Strings

    A string is the sequence of its characters in UTF-8, one byte per
    [ascii].  A surrogate that has no partner is written like any other
    code point, in the three bytes ED, A0..BF, 80..BF; a pair of surrogates
    is the four bytes of the character it stands for. *)

Definition byte_in (lo hi : nat) (c : ascii) : bool :=
  (Nat.leb lo (nat_of_ascii c) && Nat.leb (nat_of_ascii c) hi)%bool.

Definition is_byte (n : nat) (c : ascii) : bool :=
  Nat.eqb (nat_of_ascii c) n.

(** The first two bytes of a lone surrogate. *)
Definition lone_surrogate (c1 c2 : ascii) : bool :=
  (is_byte 237 c1 && byte_in 160 191 c2)%bool.

(** The string has no lone surrogate. *)
Fixpoint well_formed (s : string) : bool :=
  match s with
  | String c1 ((String c2 _) as rest) =>
      if lone_surrogate c1 c2 then false else well_formed rest
  | _ => true
  end.

(** U+FFFD *)
Definition replacement_character : string :=
  String (ascii_of_nat 239)
    (String (ascii_of_nat 191) (String (ascii_of_nat 189) EmptyString)).

(** The conversion to a USVString: U+FFFD takes the place of every lone
    surrogate. *)
Fixpoint to_usv (s : string) : string :=
  match s with
  | String c1 ((String c2 (String _ rest)) as tail) =>
      if lone_surrogate c1 c2 then replacement_character ++ to_usv rest
      else String c1 (to_usv tail)
  | String c rest => String c (to_usv rest)
  | EmptyString => EmptyString
  end.

(** *** parseInt(s, 10): leading white space, an optional sign, then the
    longest run of decimal digits; NaN when there is no digit. *)

(** White space of one byte: TAB, LF, VT, FF, CR and the space. *)
Definition is_space (c : ascii) : bool :=
  let n := nat_of_ascii c in
  (Nat.eqb n 32 || Nat.eqb n 9 || Nat.eqb n 10 || Nat.eqb n 11
   || Nat.eqb n 12 || Nat.eqb n 13)%bool.

(** U+00A0 *)
Definition is_space2 (c1 c2 : ascii) : bool :=
  (is_byte 194 c1 && is_byte 160 c2)%bool.

(** U+1680, U+2000..U+200A, U+2028, U+2029, U+202F, U+205F, U+3000 and
    U+FEFF *)
Definition is_space3 (c1 c2 c3 : ascii) : bool :=
  ((is_byte 225 c1 && is_byte 154 c2 && is_byte 128 c3)
   || (is_byte 226 c1 && is_byte 128 c2
       && (byte_in 128 138 c3 || is_byte 168 c3 || is_byte 169 c3
           || is_byte 175 c3))
   || (is_byte 226 c1 && is_byte 129 c2 && is_byte 159 c3)
   || (is_byte 227 c1 && is_byte 128 c2 && is_byte 128 c3)
   || (is_byte 239 c1 && is_byte 187 c2 && is_byte 191 c3))%bool.

Fixpoint skip_spaces (s : string) : string :=
  match s with
  | String c1 rest1 =>
      if is_space c1 then skip_spaces rest1
      else
        match rest1 with
        | String c2 rest2 =>
            if is_space2 c1 c2 then skip_spaces rest2
            else
              match rest2 with
              | String c3 rest3 =>
                  if is_space3 c1 c2 c3 then skip_spaces rest3 else s
              | EmptyString => s
              end
        | EmptyString => s
        end
  | EmptyString => s
  end.

Definition digit_of (c : ascii) : option Z :=
  let n := nat_of_ascii c in
  if (Nat.leb 48 n && Nat.leb n 57)%bool
  then Some (Z.of_nat n - 48) else None.

(** The longest prefix of decimal digits, as (value so far, digits seen). *)
Fixpoint digits (s : string) (acc : Z) (seen : bool) : option Z :=
  match s with
  | String c rest =>
      match digit_of c with
      | Some d => digits rest (10 * acc + d) true
      | None => if seen then Some acc else None
      end
  | EmptyString => if seen then Some acc else None
  end.

Definition parseInt (s : string) : number :=
  let s := skip_spaces s in
  let '(sign, s) :=
    match s with
    | String "-" rest => (-1, rest)
    | String "+" rest => (1, rest)
    | _ => (1, s)
    end in
  match digits s 0 false with
  | Some z => of_integer (sign * z)
  | None => NaN
  end.

(** *** Percent-encoding *)

Definition hex_digit (n : nat) : ascii :=
  ascii_of_nat (if Nat.ltb n 10 then 48 + n else 55 + n).

Definition percent (c : ascii) : string :=
  let n := nat_of_ascii c in
  String "%" (String (hex_digit (Nat.div n 16))
               (String (hex_digit (Nat.modulo n 16)) EmptyString)).

Definition is_alnum (c : ascii) : bool :=
  let n := nat_of_ascii c in
  ((Nat.leb 48 n && Nat.leb n 57)
   || (Nat.leb 65 n && Nat.leb n 90)
   || (Nat.leb 97 n && Nat.leb n 122))%bool.

Definition one_of (set : string) (c : ascii) : bool :=
  existsb (Ascii.eqb c) (list_ascii_of_string set).

Fixpoint encode_with (keep : ascii -> bool) (sub : ascii -> option string)
         (s : string) : string :=
  match s with
  | EmptyString => EmptyString
  | String c rest =>
      (match sub c with
       | Some r => r
       | None => if keep c then String c EmptyString else percent c
       end) ++ encode_with keep sub rest
  end.

(** The encoding of encodeURIComponent: letters, digits and [-_.!~*'()]
    stay, every other byte is escaped. *)
Definition percent_encode (s : string) : string :=
  encode_with (fun c => (is_alnum c || one_of "-_.!~*'()" c)%bool)
              (fun _ => None) s.

(** encodeURIComponent: [None] is the URIError thrown for a string with a
    lone surrogate. *)
Definition encodeURIComponent (s : string) : option string :=
  if well_formed s then Some (percent_encode s) else None.

(** URLSearchParams: [append] adds a pair at the end, [toString] is the
    application/x-www-form-urlencoded serialisation.  Names and values are
    USVStrings. *)
Definition URLSearchParams := list (string * string).

Definition form_encode (s : string) : string :=
  encode_with (fun c => (is_alnum c || one_of "*-._" c)%bool)
              (fun c => if Ascii.eqb c " " then Some "+" else None)
              (to_usv s).

Definition params_to_string (p : URLSearchParams) : string :=
  join "&" (map (fun '(k, v) => form_encode k ++ "=" ++ form_encode v) p).

End JS.

(* ===================================================================== *)
(** ** Requests, responses, errors and the world they run in *)
(* ===================================================================== *)

Module Runtime.
Import JS.

Inductive http_method : Type := GET | POST | DELETE.

(** The request configuration handed through the interceptors and on to
    the adapter. *)
Record config : Type := mkConfig {
  baseURL : string;
  url : string;
  method : http_method;
  headers : list (string * string);
  data : option value;
  timeout : Z
}.

(** What the caller destructures: [response.status], [response.data]. *)
Record response : Type := mkResponse {
  status : Z;
  res_data : value
}.

(** A rejection value: [error.response], [error.request], [error.message].
    A runtime TypeError has neither response nor request. *)
Record error : Type := mkError {
  err_response : option response;
  err_request : bool;
  message : string
}.

Inductive outcome (A : Type) : Type :=
| Fulfilled (a : A)
| Rejected (e : error).
Arguments Fulfilled {A} a.
Arguments Rejected {A} e.

Inductive log_arg : Type :=
| LStr (s : string)
| LErr (e : error).

(** Observable effects, oldest first. *)
Inductive event : Type :=
| Http (c : config)
| ConsoleError (args : list log_arg)
| ToastSuccess (msg : string)
| ToastError (msg : value)
| Invalidate (key : list value).

(** One query of the QueryClient's cache. *)
Record query_state : Type := mkQueryState {
  state_data : value;
  state_error : option error;
  isInvalidated : bool
}.

Definition query_cache : Type := list (list value * query_state).

Record world : Type := mkWorld {
  VITE_API_URL : option string;
  getTokenFunction : option (unit -> outcome (option string));
  backend : list event -> config -> outcome response;
  queries : query_cache;
  trace : list event
}.

Definition with_trace (t : list event) (w : world) : world :=
  mkWorld (VITE_API_URL w) (getTokenFunction w) (backend w) (queries w) t.

Definition with_queries (q : query_cache) (w : world) : world :=
  mkWorld (VITE_API_URL w) (getTokenFunction w) (backend w) q (trace w).

Definition with_token_getter
  (g : option (unit -> outcome (option string))) (w : world) : world :=
  mkWorld (VITE_API_URL w) g (backend w) (queries w) (trace w).

(** *** Promises *)

Definition promise (A : Type) : Type := world -> outcome A * world.

Definition resolve {A : Type} (a : A) : promise A :=
  fun w => (Fulfilled a, w).

Definition reject {A : Type} (e : error) : promise A :=
  fun w => (Rejected e, w).

Definition bind {A B : Type} (p : promise A) (k : A -> promise B) : promise B :=
  fun w =>
    match p w with
    | (Fulfilled a, w') => k a w'
    | (Rejected e, w') => (Rejected e, w')
    end.

(** [p.then(onFulfilled, onRejected)]; a missing handler passes the
    rejection on. *)
Definition then_ {A B : Type} (p : promise A) (onFulfilled : A -> promise B)
           (onRejected : option (error -> promise B)) : promise B :=
  fun w =>
    match p w with
    | (Fulfilled a, w') => onFulfilled a w'
    | (Rejected e, w') =>
        match onRejected with
        | Some h => h e w'
        | None => (Rejected e, w')
        end
    end.

(** [try { p } catch (error) { h error }] *)
Definition try_catch {A : Type} (p : promise A) (h : error -> promise A)
  : promise A :=
  then_ p resolve (Some h).

Definition emit (e : event) : promise unit :=
  fun w => (Fulfilled tt, with_trace (trace w ++ [e]) w).

Definition read {A : Type} (f : world -> A) : promise A :=
  fun w => (Fulfilled (f w), w).

Definition console_error (args : list log_arg) : promise unit :=
  emit (ConsoleError args).

(** [v.k] where [v] may be null or undefined: reading a property of either
    throws a TypeError. *)
Definition member (k : string) (v : value) : outcome value :=
  if nullish v
  then Rejected (mkError None false
                   ("Cannot read properties of " ++ to_string v
                    ++ " (reading '" ++ k ++ "')"))
  else Fulfilled (field k v).

Definition get (k : string) (v : value) : promise value :=
  fun w => (member k v, w).

(** What encodeURIComponent throws. *)
Definition URIError : error := mkError None false "URI malformed".

(** Effects of a run: the events added to the trace, and the requests among
    them. *)
Definition requests_of (t : list event) : list config :=
  flat_map (fun e => match e with Http c => [c] | _ => [] end) t.

Definition run {A : Type} (p : promise A) (w : world) : outcome A :=
  fst (p w).

Definition after {A : Type} (p : promise A) (w : world) : world :=
  snd (p w).

Definition emitted {A : Type} (p : promise A) (w : world) : list event :=
  skipn (List.length (trace w)) (trace (after p w)).

Definition sent {A : Type} (p : promise A) (w : world) : list config :=
  requests_of (emitted p w).

End Runtime.

Declare Scope promise_scope.
Notation "x <- p ;; k" := (Runtime.bind p (fun x => k))
  (at level 61, p at next level, right associativity) : promise_scope.
Notation "p ;; k" := (Runtime.bind p (fun _ => k))
  (at level 61, right associativity) : promise_scope.
Local Open Scope promise_scope.

(* ===================================================================== *)
(** ** lib/api: the axios instance and its interceptors *)
(* ===================================================================== *)

Module Api.
Import JS Runtime.

(** http-status-codes *)
Module StatusCodes.
Definition UNAUTHORIZED : Z := 401.
Definition FORBIDDEN : Z := 403.
Definition NOT_FOUND : Z := 404.
Definition CONFLICT : Z := 409.
Definition INTERNAL_SERVER_ERROR : Z := 500.
End StatusCodes.

(** [axios.create({ baseURL, headers, timeout })] *)
Definition default_baseURL (env : option string) : string :=
  match env with
  | Some s => if string_truthy s then s else "http://localhost:3000/api"
  | None => "http://localhost:3000/api"
  end.

(** The headers of a request configuration when the interceptors see it:
    the Accept header that axios gives every request, then the header of
    the instance. *)
Definition default_headers : list (string * string) :=
  [("Accept", "application/json, text/plain, */*");
   ("Content-Type", "application/json")].

Definition create (w : world) (m : http_method) (u : string)
           (d : option value) : config :=
  mkConfig (default_baseURL (VITE_API_URL w)) u m default_headers d 30000.

Definition header (name : string) (c : config) : option string :=
  assoc name (headers c).

Fixpoint set_assoc (k v : string) (l : list (string * string))
  : list (string * string) :=
  match l with
  | [] => [(k, v)]
  | (k', v') :: rest =>
      if String.eqb k k' then (k, v) :: rest else (k', v') :: set_assoc k v rest
  end.

(** [config.headers\[name\] = v] *)
Definition set_header (name v : string) (c : config) : config :=
  mkConfig (baseURL c) (url c) (method c) (set_assoc name v (headers c))
           (data c) (timeout c).

(** [setTokenGetter(fn)]: assigns the module variable. *)
Definition setTokenGetter (fn : unit -> outcome (option string))
  : promise unit :=
  fun w => (Fulfilled tt, with_token_getter (Some fn) w).

(** [await getTokenFunction()] *)
Definition await_token (fn : unit -> outcome (option string))
  : promise (option string) :=
  fun w => (fn tt, w).

(** Request interceptor, fulfilled handler. *)
Definition request_fulfilled (c : config) : promise config :=
  getter <- read getTokenFunction ;;
  match getter with
  | Some fn =>
      try_catch
        (token <- await_token fn ;;
         match token with
         | Some t =>
             if string_truthy t
             then resolve (set_header "Authorization" ("Bearer " ++ t) c)
             else resolve c
         | None => resolve c
         end)
        (fun error =>
           console_error [LStr "Failed to get auth token:"; LErr error] ;;
           resolve c)
  | None => resolve c
  end.

(** Request interceptor, rejected handler. *)
Definition request_rejected (e : error) : promise config := reject e.

(** Response interceptor, fulfilled handler. *)
Definition response_fulfilled (r : response) : promise response := resolve r.

(** Response interceptor, rejected handler. *)
Definition response_rejected (e : error) : promise response :=
  (match err_response e with
   | Some r =>
       let status := status r in
       let data := res_data r in
       if status =? StatusCodes.UNAUTHORIZED then
         console_error [LStr "Unauthorized. Please log in again."]
       else if status =? StatusCodes.FORBIDDEN then
         console_error [LStr "Forbidden. You don't have permission."]
       else if status =? StatusCodes.NOT_FOUND then
         console_error [LStr "Resource not found."]
       else if status =? StatusCodes.CONFLICT then
         console_error [LStr "Too many requests. Please slow down."]
       else if status =? StatusCodes.INTERNAL_SERVER_ERROR then
         console_error [LStr "Server error. Please try again later."]
       else
         console_error
           [LStr ("Error: "
                  ++ to_string (or_else (opt_field "error" data)
                                        (VStr "Something went wrong")))]
   | None =>
       if err_request e then
         console_error [LStr "No response from server. Check your connection."]
       else
         console_error [LStr "Request error:"; LStr (message e)]
   end) ;;
  reject e.

(** The adapter: it receives the configuration, the request goes on the
    wire and the backend answers.  [Http c] records the configuration the
    adapter was given. *)
Definition dispatch (c : config) : promise response :=
  fun w =>
    let answer := backend w (trace w) c in
    (answer, with_trace (trace w ++ [Http c]) w).

(** [api.request(config)]: the interceptor chain of axios,
    request handlers, then the adapter, then response handlers. *)
Definition request (c : config) : promise response :=
  then_
    (then_
       (then_ (resolve c) request_fulfilled (Some request_rejected))
       dispatch None)
    response_fulfilled (Some response_rejected).

Definition api_get (u : string) : promise response :=
  w <- read (fun w => w) ;; request (create w GET u None).

Definition api_post (u : string) (d : value) : promise response :=
  w <- read (fun w => w) ;; request (create w POST u (Some d)).

Definition api_delete (u : string) : promise response :=
  w <- read (fun w => w) ;; request (create w DELETE u None).

End Api.

(* ===================================================================== *)
(** ** The data-fetching library, as far as the hooks rely on it *)
(* ===================================================================== *)

Module QueryClient.
Import JS Runtime.

(** The options object given to [useQuery]. *)
Record query_options : Type := mkQuery {
  queryKey : list value;
  queryFn : promise value;
  enabled : bool;
  staleTime : Z
}.

(** The options object given to [useMutation]; [onMutate] is absent from
    every mutation of this code. *)
Record mutation_options (V : Type) : Type := mkMutation {
  mutationFn : V -> promise value;
  onSuccess : promise unit;
  onError : error -> promise unit
}.
Arguments mkMutation {V} _ _ _.
Arguments mutationFn {V} _ _.
Arguments onSuccess {V} _.
Arguments onError {V} _ _.

(** main.tsx: [new QueryClient({ defaultOptions: { queries: { retry: 1 }}})] *)
Definition retry : nat := 1.

(** [a === b] on primitives; two object literals are never identical. *)
Definition strict_eqb (a b : value) : bool :=
  match a, b with
  | VUndefined, VUndefined => true
  | VNull, VNull => true
  | VBool x, VBool y => Bool.eqb x y
  | VNum x, VNum y => number_eqb x y
  | VStr x, VStr y => String.eqb x y
  | _, _ => false
  end.

Definition is_object (v : value) : bool :=
  match v with
  | VArr _ | VObj _ => true
  | _ => false
  end.

Fixpoint item_at (items : list value) (i : Z) (k : string) : value :=
  match items with
  | [] => VUndefined
  | x :: rest =>
      if String.eqb (number_to_string (Num i)) k then x
      else item_at rest (i + 1) k
  end.

(** [a\[k\]] for an array or an object. *)
Definition prop (k : string) (a : value) : value :=
  match a with
  | VArr items =>
      if String.eqb k "length" then VNum (Num (Z.of_nat (List.length items)))
      else item_at items 0 k
  | _ => field k a
  end.

(** partialMatchKey(a, b): every key of [b] is matched in [a]. *)
Fixpoint partialMatchKey (a b : value) {struct b} : bool :=
  match b with
  | VArr items =>
      (is_object a
       && (fix every (l : list value) (i : Z) : bool :=
             match l with
             | [] => true
             | x :: rest =>
                 partialMatchKey (prop (number_to_string (Num i)) a) x
                 && every rest (i + 1)
             end) items 0)%bool
  | VObj fields =>
      (is_object a
       && (fix every (l : list (string * value)) : bool :=
             match l with
             | [] => true
             | (k, x) :: rest =>
                 partialMatchKey (prop k a) x && every rest
             end) fields)%bool
  | _ => strict_eqb a b
  end.

(** Equality of query hashes: JSON.stringify writes NaN, the infinities,
    undefined and null inside an array as null. *)
Definition null_like (v : value) : bool :=
  match v with
  | VUndefined | VNull | VNum NaN | VNum (Infinity _) => true
  | _ => false
  end.

Fixpoint hash_eqb (a b : value) {struct a} : bool :=
  if (null_like a && null_like b)%bool then true
  else
    match a, b with
    | VBool x, VBool y => Bool.eqb x y
    | VNum x, VNum y => number_eqb x y
    | VStr x, VStr y => String.eqb x y
    | VArr la, VArr lb =>
        (fix all2 (l : list value) (m : list value) : bool :=
           match l, m with
           | [], [] => true
           | x :: l', y :: m' => hash_eqb x y && all2 l' m'
           | _, _ => false
           end) la lb
    | VObj fa, VObj fb =>
        (fix all2 (l : list (string * value)) (m : list (string * value))
           : bool :=
           match l, m with
           | [], [] => true
           | (k, x) :: l', (k', y) :: m' =>
               String.eqb k k' && hash_eqb x y && all2 l' m'
           | _, _ => false
           end) fa fb
    | _, _ => false
    end%bool.

Definition same_key (k k' : list value) : bool := hash_eqb (VArr k) (VArr k').

Fixpoint find_query (k : list value) (c : query_cache) : option query_state :=
  match c with
  | [] => None
  | (k', st) :: rest => if same_key k k' then Some st else find_query k rest
  end.

Fixpoint set_query (k : list value) (st : query_state) (c : query_cache)
  : query_cache :=
  match c with
  | [] => [(k, st)]
  | (k', st') :: rest =>
      if same_key k k' then (k', st) :: rest
      else (k', st') :: set_query k st rest
  end.

Definition invalidate (st : query_state) : query_state :=
  mkQueryState (state_data st) (state_error st) true.

Definition mark_invalid (filter : list value) (c : query_cache) : query_cache :=
  map (fun '(k, st) =>
         if partialMatchKey (VArr k) (VArr filter)
         then (k, invalidate st) else (k, st))
      c.

(** [queryClient.invalidateQueries({ queryKey })]: every query whose key is
    matched by the filter is marked; no cached data is written.  The call
    returns before anything is fetched: the fetch that brings a marked query
    of a mounted observer up to date is the [settle] of that observer, which
    runs after the handler that invalidated. *)
Definition invalidateQueries (filter : list value) : promise unit :=
  emit (Invalidate filter) ;;
  fun w => (Fulfilled tt, with_queries (mark_invalid filter (queries w)) w).

(** The retryer: a rejected attempt is run again while retries are left. *)
Fixpoint attempt (retries : nat) (fn : promise value) : promise value :=
  match retries with
  | O => fn
  | S n => then_ fn resolve (Some (fun _ => attempt n fn))
  end.

Definition previous_data (k : list value) (w : world) : value :=
  match find_query k (queries w) with
  | Some st => state_data st
  | None => VUndefined
  end.

(** The error a query is given when its function resolves to undefined
    (the message of the library names the hash of the key before these
    words; no code of the application reads it). *)
Definition undefined_data : error :=
  mkError None false "data is undefined".

(** What a fetch leaves in the query: the data, or the error next to the
    data the query had; a result of undefined counts as an error. *)
Definition fetched (k : list value) (o : outcome value) (w : world)
  : query_state :=
  match o with
  | Fulfilled VUndefined =>
      mkQueryState (previous_data k w) (Some undefined_data) false
  | Fulfilled d => mkQueryState d None false
  | Rejected e => mkQueryState (previous_data k w) (Some e) false
  end.

(** One fetch of a query: the result lands in the cache. *)
Definition fetch (q : query_options) : promise unit :=
  fun w =>
    let '(o, w') := attempt retry (queryFn q) w in
    (Fulfilled tt,
     with_queries
       (set_query (queryKey q) (fetched (queryKey q) o w') (queries w'))
       w').

(** A cached query is fetched again when it was invalidated or holds no
    successful result (staleness by age is outside this model). *)
Definition needs_fetch (st : query_state) : bool :=
  (isInvalidated st
   || match state_error st with Some _ => true | None => false end)%bool.

(** A mounted observer brings its query up to date; a disabled one never
    fetches. *)
Definition settle (q : query_options) : promise unit :=
  if enabled q then
    cached <- read (fun w => find_query (queryKey q) (queries w)) ;;
    match cached with
    | Some st => if needs_fetch st then fetch q else resolve tt
    | None => fetch q
    end
  else resolve tt.

Fixpoint settle_all (qs : list query_options) : promise unit :=
  match qs with
  | [] => resolve tt
  | q :: rest => settle q ;; settle_all rest
  end.

(** What [useQuery] hands to the component: [{ data, isLoading }].
    [isLoading] is true only while a first fetch is in flight: a disabled
    query without data is pending but idle, hence not loading (the library
    version whose mutations expose [isPending], as the routes use it). *)
Record query_result : Type := mkResult {
  result_data : value;
  isLoading : bool
}.

Definition useQuery (q : query_options) (w : world) : query_result :=
  match find_query (queryKey q) (queries w) with
  | Some st => mkResult (state_data st) false
  | None => mkResult VUndefined (enabled q)
  end.

(** [mutation.mutateAsync(variables)]: the mutation function runs first,
    then the handler of its outcome. *)
Definition execute {V : Type} (m : mutation_options V) (variables : V)
  : promise value :=
  then_ (mutationFn m variables)
        (fun d => onSuccess m ;; resolve d)
        (Some (fun e => onError m e ;; reject e)).

End QueryClient.

(* ===================================================================== *)
(** ** hooks/useMovies *)
(* ===================================================================== *)

Module UseMovies.
Import JS Runtime Api QueryClient.

Inductive time_window : Type := Day | Week.

Definition time_window_string (t : time_window) : string :=
  match t with Day => "day" | Week => "week" end.

Definition default {A : Type} (d : A) (o : option A) : A :=
  match o with Some a => a | None => d end.

Definition num_string (n : number) : string := number_to_string n.

(** [const { data } = await api.get(u); return data.data;] *)
Definition get_data (u : string) : promise value :=
  r <- api_get u ;;
  let data := res_data r in
  get "data" data.

Definition useTrendingMovies (timeWindow : option time_window)
  : query_options :=
  let timeWindow := default Week timeWindow in
  mkQuery
    [VStr "movies"; VStr "trending"; VStr (time_window_string timeWindow)]
    (get_data ("/movies/trending?timeWindow="
               ++ time_window_string timeWindow))
    true
    (1000 * 60 * 5).

Definition usePopularMovies (page : option number) : query_options :=
  let page := default (Num 1) page in
  mkQuery
    [VStr "movies"; VStr "popular"; VNum page]
    (get_data ("/movies/popular?page=" ++ num_string page))
    true
    (1000 * 60 * 10).

Definition useTopRatedMovies (page : option number) : query_options :=
  let page := default (Num 1) page in
  mkQuery
    [VStr "movies"; VStr "top-rated"; VNum page]
    (get_data ("/movies/top-rated?page=" ++ num_string page))
    true
    (1000 * 60 * 10).

Definition useNowPlayingMovies (page : option number) : query_options :=
  let page := default (Num 1) page in
  mkQuery
    [VStr "movies"; VStr "now-playing"; VNum page]
    (get_data ("/movies/now-playing?page=" ++ num_string page))
    true
    (1000 * 60 * 3).

Definition useUpcomingMovies (page : option number) : query_options :=
  let page := default (Num 1) page in
  mkQuery
    [VStr "movies"; VStr "upcoming"; VNum page]
    (get_data ("/movies/upcoming?page=" ++ num_string page))
    true
    (1000 * 60 * 10).

Definition useMovieDetails (movieId : number) : query_options :=
  mkQuery
    [VStr "movie"; VNum movieId]
    (get_data ("/movies/" ++ num_string movieId))
    (number_truthy movieId)
    (1000 * 60 * 30).

Definition useMovieCredits (movieId : number) : query_options :=
  mkQuery
    [VStr "movie"; VNum movieId; VStr "credits"]
    (get_data ("/movies/" ++ num_string movieId ++ "/credits"))
    (number_truthy movieId)
    (1000 * 60 * 30).

Definition useMovieVideos (movieId : number) : query_options :=
  mkQuery
    [VStr "movie"; VNum movieId; VStr "videos"]
    (get_data ("/movies/" ++ num_string movieId ++ "/videos"))
    (number_truthy movieId)
    (1000 * 60 * 30).

Definition useSimilarMovies (movieId : number) (page : option number)
  : query_options :=
  let page := default (Num 1) page in
  mkQuery
    [VStr "movie"; VNum movieId; VStr "similar"; VNum page]
    (get_data ("/movies/" ++ num_string movieId ++ "/similar?page="
               ++ num_string page))
    (number_truthy movieId)
    (1000 * 60 * 10).

Definition useMovieRecommendations (movieId : number) (page : option number)
  : query_options :=
  let page := default (Num 1) page in
  mkQuery
    [VStr "movie"; VNum movieId; VStr "recommendations"; VNum page]
    (get_data ("/movies/" ++ num_string movieId ++ "/recommendations?page="
               ++ num_string page))
    (number_truthy movieId)
    (1000 * 60 * 10).

Definition useSearchMovies (query : string) (page : option number)
  : query_options :=
  let page := default (Num 1) page in
  mkQuery
    [VStr "movies"; VStr "search"; VStr query; VNum page]
    (match encodeURIComponent query with
     | Some encoded =>
         get_data ("/movies/search?query=" ++ encoded
                   ++ "&page=" ++ num_string page)
     | None => reject URIError
     end)
    (Nat.ltb 0 (String.length query))
    (1000 * 60 * 5).

Record discover_filters : Type := mkFilters {
  with_genres : option string;
  year : option number;
  sort_by : option string;
  page : option number
}.

(** The filters object as it sits in the query key. *)
Definition filters_value (f : discover_filters) : value :=
  VObj
    ((match with_genres f with Some s => [("with_genres", VStr s)] | None => [] end)
     ++ (match year f with Some n => [("year", VNum n)] | None => [] end)
     ++ (match sort_by f with Some s => [("sort_by", VStr s)] | None => [] end)
     ++ (match page f with Some n => [("page", VNum n)] | None => [] end)).

Definition append_if_string (name : string) (v : option string)
           (params : URLSearchParams) : URLSearchParams :=
  match v with
  | Some s => if string_truthy s then (params ++ [(name, s)])%list else params
  | None => params
  end.

Definition append_if_number (name : string) (v : option number)
           (params : URLSearchParams) : URLSearchParams :=
  match v with
  | Some n =>
      if number_truthy n then (params ++ [(name, num_string n)])%list else params
  | None => params
  end.

Definition discover_params (f : discover_filters) : URLSearchParams :=
  let params := [] in
  let params := append_if_string "with_genres" (with_genres f) params in
  let params := append_if_number "year" (year f) params in
  let params := append_if_string "sort_by" (sort_by f) params in
  let params := append_if_number "page" (page f) params in
  params.

Definition useDiscoverMovies (filters : discover_filters) : query_options :=
  mkQuery
    [VStr "movies"; VStr "discover"; filters_value filters]
    (get_data ("/movies/discover?" ++ params_to_string (discover_params filters)))
    true
    (1000 * 60 * 10).

Definition useMovieGenres : query_options :=
  mkQuery
    [VStr "movies"; VStr "genres"]
    (get_data "/movies/genres")
    true
    (1000 * 60 * 60 * 24).

End UseMovies.

(* ===================================================================== *)
(** ** hooks/useWatchlist *)
(* ===================================================================== *)

Module UseWatchlist.
Import JS Runtime Api QueryClient.

Inductive content_type : Type := Movie | Tv.

Definition content_type_string (c : content_type) : string :=
  match c with Movie => "movie" | Tv => "tv" end.

Definition watchlist_key : list value := [VStr "watchlist"].

Definition useWatchlist : query_options :=
  mkQuery
    watchlist_key
    (r <- api_get "/watchlist" ;;
     let data := res_data r in
     get "data" data)
    true
    (1000 * 60 * 2).

(** [error.response?.data?.error || fallback] *)
Definition error_message (e : error) (fallback : string) : value :=
  or_else
    (match err_response e with
     | Some r => opt_field "error" (res_data r)
     | None => VUndefined
     end)
    (VStr fallback).

Definition useAddToWatchlist : mutation_options value :=
  mkMutation
    (fun item =>
       r <- api_post "/watchlist" item ;;
       let data := res_data r in
       resolve data)
    (invalidateQueries [VStr "watchlist"] ;;
     emit (ToastSuccess "Added to watchlist!"))
    (fun error =>
       let message := error_message error "Failed to add to watchlist" in
       emit (ToastError message)).

Definition useRemoveFromWatchlist : mutation_options string :=
  mkMutation
    (fun watchlistId =>
       r <- api_delete ("/watchlist/" ++ watchlistId) ;;
       let data := res_data r in
       resolve data)
    (invalidateQueries [VStr "watchlist"] ;;
     emit (ToastSuccess "Removed from watchlist"))
    (fun error =>
       let message := error_message error "Failed to remove from watchlist" in
       emit (ToastError message)).

Definition useWatchlistStatus (tmdbId : number) (contentType : content_type)
  : query_options :=
  mkQuery
    [VStr "watchlist"; VStr "status"; VNum tmdbId;
     VStr (content_type_string contentType)]
    (r <- api_get ("/watchlist/check?tmdbId=" ++ number_to_string tmdbId
                   ++ "&contentType=" ++ content_type_string contentType) ;;
     let data := res_data r in
     resolve data)
    (number_truthy tmdbId && string_truthy (content_type_string contentType))
    (1000 * 60 * 2).

End UseWatchlist.

(* ===================================================================== *)
(** ** routes: what the pages ask for and what they show *)
(* ===================================================================== *)

Module Routes.
Import JS Runtime Api QueryClient UseMovies UseWatchlist.

(** [v.length] of a value that is not null or undefined. *)
Definition length_of (v : value) : value :=
  match v with
  | VArr items => VNum (Num (Z.of_nat (List.length items)))
  | VStr s => VNum (Num (Z.of_nat (String.length s)))
  | _ => field "length" v
  end.

(** *** routes/index.tsx *)

Inductive row_view : Type :=
| RowSkeleton (title : string) (placeholders : nat)
| RowCards (title : string) (cards : list value).

(** [movies.map((movie) => <MovieCard key={movie.id} movie={movie} />)]:
    one element per movie, whose key is read from the movie. *)
Fixpoint card_elements (movies : list value) : outcome (list value) :=
  match movies with
  | [] => Fulfilled []
  | movie :: rest =>
      match member "id" movie with
      | Fulfilled _ =>
          match card_elements rest with
          | Fulfilled cards => Fulfilled (movie :: cards)
          | Rejected e => Rejected e
          end
      | Rejected e => Rejected e
      end
  end.

(** [MovieRow({ title, movies, isLoading })]; [None] is a row that renders
    nothing, a card is the [movie] prop of one [MovieCard] element. *)
Definition MovieRow (title : string) (movies : value) (isLoading : bool)
  : outcome (option row_view) :=
  if isLoading then Fulfilled (Some (RowSkeleton title 10))
  else if negb (truthy (length_of movies)) then Fulfilled None
  else
    match movies with
    | VArr items =>
        match card_elements items with
        | Fulfilled cards => Fulfilled (Some (RowCards title cards))
        | Rejected e => Rejected e
        end
    | _ => Rejected (mkError None false "movies.map is not a function")
    end.

Definition home_queries : list query_options :=
  [useTrendingMovies None; usePopularMovies None; useTopRatedMovies None].

(** [data?.results || \[\]] *)
Definition results_or_empty (d : value) : value :=
  or_else (opt_field "results" d) (VArr []).


(** *** routes/watchlist.tsx *)

Inductive watchlist_view : Type :=
| SignInPrompt
| WatchlistSkeleton (placeholders : nat)
| WatchlistEmpty
| WatchlistGrid (items : value).

Definition watchlist_queries : list query_options := [useWatchlist].

Definition WatchlistPage (isSignedIn : bool) (w : world) : watchlist_view :=
  let q := useQuery useWatchlist w in
  let watchlist := result_data q in
  if negb isSignedIn then SignInPrompt
  else if isLoading q then WatchlistSkeleton 10
  else if (negb (truthy watchlist)
           || strict_eqb (length_of watchlist) (VNum (Num 0)))%bool
       then WatchlistEmpty
  else WatchlistGrid watchlist.

(** The remove button of one item, once the user has confirmed. *)
Definition remove_click (item_id : string) : promise value :=
  execute useRemoveFromWatchlist item_id.

(** *** routes/movie.$id.tsx *)

Inductive detail_view : Type :=
| DetailSpinner
| MovieNotFound
| MovieDetail (movie credits similarMovies watchlistStatus : value).

Definition detail_queries (id : string) : list query_options :=
  let movieId := parseInt id in
  [useMovieDetails movieId; useMovieCredits movieId;
   useSimilarMovies movieId None; useWatchlistStatus movieId Movie].

Definition MovieDetailPage (id : string) (w : world) : detail_view :=
  let movieId := parseInt id in
  let details := useQuery (useMovieDetails movieId) w in
  let movie := result_data details in
  let credits := result_data (useQuery (useMovieCredits movieId) w) in
  let similarMovies :=
    result_data (useQuery (useSimilarMovies movieId None) w) in
  let watchlistStatus :=
    result_data (useQuery (useWatchlistStatus movieId Movie) w) in
  if isLoading details then DetailSpinner
  else if negb (truthy movie) then MovieNotFound
  else MovieDetail movie credits similarMovies watchlistStatus.

(** [handleWatchlistToggle], for a signed-in user on a loaded movie. *)
Definition handleWatchlistToggle (movie watchlistStatus : value)
  : promise value :=
  if truthy (opt_field "inWatchlist" watchlistStatus) then
    d <- get "data" watchlistStatus ;;
    i <- get "id" d ;;
    execute useRemoveFromWatchlist (to_string i)
  else
    execute useAddToWatchlist
      (VObj [("tmdbId", field "id" movie);
             ("contentType", VStr "movie");
             ("title", field "title" movie);
             ("posterPath", field "poster_path" movie)]).

(** Opening a page: its observers mount and settle. *)
Definition open_page (qs : list query_options) : promise unit :=
  settle_all qs.

End Routes.

(* ===================================================================== *)
(** ** Vocabulary of the statements *)
(* ===================================================================== *)

Module Spec.
Import JS Runtime Api QueryClient UseMovies UseWatchlist Routes.

(** The configuration that leaves the request interceptor, and the world in
    which it is handed to the adapter. *)
Definition outgoing (c : config) (w : world) : config :=
  match run (request_fulfilled c) w with
  | Fulfilled c' => c'
  | Rejected _ => c
  end.

Definition at_wire (c : config) (w : world) : world :=
  after (request_fulfilled c) w.

(** What the request interceptor writes to the console: nothing, unless the
    token getter fails. *)
Definition token_log (w : world) : list event :=
  match getTokenFunction w with
  | Some fn =>
      match fn tt with
      | Rejected e =>
          [ConsoleError [LStr "Failed to get auth token:"; LErr e]]
      | Fulfilled _ => []
      end
  | None => []
  end.

(** The answer of the backend to the request [api.request(c)] made in [w]. *)
Definition answer (c : config) (w : world) : outcome response :=
  backend w (trace (at_wire c w)) (outgoing c w).

(** The query hooks of hooks/useMovies and the watchlist query, with their
    arguments. *)
Inductive hook : Type :=
| Trending (timeWindow : option time_window)
| Popular (page : option number)
| TopRated (page : option number)
| NowPlaying (page : option number)
| Upcoming (page : option number)
| Details (movieId : number)
| Credits (movieId : number)
| Videos (movieId : number)
| Similar (movieId : number) (page : option number)
| Recommendations (movieId : number) (page : option number)
| Search (query : string) (page : option number)
| Discover (filters : discover_filters)
| Genres
| Watchlist.

Definition options (h : hook) : query_options :=
  match h with
  | Trending t => useTrendingMovies t
  | Popular p => usePopularMovies p
  | TopRated p => useTopRatedMovies p
  | NowPlaying p => useNowPlayingMovies p
  | Upcoming p => useUpcomingMovies p
  | Details i => useMovieDetails i
  | Credits i => useMovieCredits i
  | Videos i => useMovieVideos i
  | Similar i p => useSimilarMovies i p
  | Recommendations i p => useMovieRecommendations i p
  | Search q p => useSearchMovies q p
  | Discover f => useDiscoverMovies f
  | Genres => useMovieGenres
  | Watchlist => useWatchlist
  end.

(** The backend endpoint of each hook, path and query string. *)
Definition endpoint (h : hook) : string :=
  let pg := fun p => number_to_string (default (Num 1) p) in
  match h with
  | Trending t =>
      "/movies/trending?timeWindow=" ++ time_window_string (default Week t)
  | Popular p => "/movies/popular?page=" ++ pg p
  | TopRated p => "/movies/top-rated?page=" ++ pg p
  | NowPlaying p => "/movies/now-playing?page=" ++ pg p
  | Upcoming p => "/movies/upcoming?page=" ++ pg p
  | Details i => "/movies/" ++ number_to_string i
  | Credits i => "/movies/" ++ number_to_string i ++ "/credits"
  | Videos i => "/movies/" ++ number_to_string i ++ "/videos"
  | Similar i p =>
      "/movies/" ++ number_to_string i ++ "/similar?page=" ++ pg p
  | Recommendations i p =>
      "/movies/" ++ number_to_string i ++ "/recommendations?page=" ++ pg p
  | Search q p =>
      "/movies/search?query=" ++ percent_encode q ++ "&page=" ++ pg p
  | Discover f => "/movies/discover?" ++ params_to_string (discover_params f)
  | Genres => "/movies/genres"
  | Watchlist => "/watchlist"
  end.

(** The hooks whose query function gets as far as a request: all but a
    search for a text with a lone surrogate, on which encodeURIComponent
    throws. *)
Definition sendable (h : hook) : bool :=
  match h with
  | Search q _ => well_formed q
  | _ => true
  end.

(** The query hooks that take the id of a movie or of a watchlist item. *)
Inductive id_hook : Type :=
| IdDetails
| IdCredits
| IdVideos
| IdSimilar (page : option number)
| IdRecommendations (page : option number)
| IdWatchlistStatus (contentType : content_type).

Definition id_options (h : id_hook) (id : number) : query_options :=
  match h with
  | IdDetails => useMovieDetails id
  | IdCredits => useMovieCredits id
  | IdVideos => useMovieVideos id
  | IdSimilar p => useSimilarMovies id p
  | IdRecommendations p => useMovieRecommendations id p
  | IdWatchlistStatus c => useWatchlistStatus id c
  end.

(** The three catalog rows of the homepage. *)
Inductive row : Type := TrendingRow | PopularRow | TopRatedRow.

Definition row_hook (r : row) : hook :=
  match r with
  | TrendingRow => Trending None
  | PopularRow => Popular None
  | TopRatedRow => TopRated None
  end.

Definition row_query (r : row) : query_options := options (row_hook r).

Definition row_title (r : row) : string :=
  match r with
  | TrendingRow => "Trending Now"
  | PopularRow => "Popular on Netflix"
  | TopRatedRow => "Top Rated"
  end.

(** One row of the homepage, as [HomePage] builds it. *)
Definition home_row (r : row) (w : world) : outcome (option row_view) :=
  let q := useQuery (row_query r) w in
  MovieRow (row_title r) (results_or_empty (result_data q)) (isLoading q).

(** Names of the parameters in the query string of a URL. *)
Fixpoint split_at (sep : ascii) (s : string) : string * option string :=
  match s with
  | EmptyString => (EmptyString, None)
  | String c rest =>
      if Ascii.eqb c sep then (EmptyString, Some rest)
      else let '(a, b) := split_at sep rest in (String c a, b)
  end.

Fixpoint split_all (fuel : nat) (sep : ascii) (s : string) : list string :=
  match fuel with
  | O => [s]
  | S n =>
      match split_at sep s with
      | (a, Some rest) => a :: split_all n sep rest
      | (a, None) => [a]
      end
  end.

Definition param_names (u : string) : list string :=
  match snd (split_at "?" u) with
  | Some q => map (fun p => fst (split_at "=" p))
                  (split_all (String.length q) "&" q)
  | None => []
  end.


(** What the cache holds, without the invalidation marks. *)
Definition cached_data (w : world) : list (list value * value * option error) :=
  map (fun '(k, st) => (k, state_data st, state_error st)) (queries w).

(** A promise that touches nothing but the trace, and only adds to it. *)
Definition trace_only {A : Type} (p : promise A) : Prop :=
  forall w, exists d, after p w = with_trace (trace w ++ d) w.

(** The two watchlist mutations, run from the click to the handlers. *)
Inductive mutation : Type :=
| Add (item : value)
| Remove (watchlistId : string).

Definition run_mutation (m : mutation) : promise value :=
  match m with
  | Add item => execute useAddToWatchlist item
  | Remove id => execute useRemoveFromWatchlist id
  end.

Definition mutation_request (m : mutation) (w : world) : config :=
  match m with
  | Add item => create w POST "/watchlist" (Some item)
  | Remove id => create w DELETE ("/watchlist/" ++ id) None
  end.

Definition success_toast (m : mutation) : string :=
  match m with
  | Add _ => "Added to watchlist!"
  | Remove _ => "Removed from watchlist"
  end.

Definition fallback_message (m : mutation) : string :=
  match m with
  | Add _ => "Failed to add to watchlist"
  | Remove _ => "Failed to remove from watchlist"
  end.

Definition infinite (n : number) : bool :=
  match n with
  | Infinity _ => true
  | _ => false
  end.

(** The ids a movie page may be opened with. *)
Definition any_id (id : string) : Prop := True.

Definition finite_id (id : string) : Prop := infinite (parseInt id) = false.

(** The queries the pages mount, the movie page for the ids in [ids]. *)
Definition page_query (ids : string -> Prop) (q : query_options) : Prop :=
  In q home_queries \/ In q watchlist_queries
  \/ exists id, ids id /\ In q (detail_queries id).

(** Every cached query was fetched by an enabled query of a page. *)
Definition cache_of_enabled_queries (ids : string -> Prop) (w : world)
  : Prop :=
  forall k st, In (k, st) (queries w) ->
               exists q, page_query ids q /\ enabled q = true
                         /\ k = queryKey q.

(** The worlds the application can be in when the movie page is opened for
    the ids in [ids] only: it starts with an empty cache and no token
    getter; pages are opened, the token getter is registered and the
    watchlist mutations are run. *)
Inductive reachable_with (ids : string -> Prop) : world -> Prop :=
| reach_start env server :
    reachable_with ids (mkWorld env None server [] [])
| reach_token fn w :
    reachable_with ids w -> reachable_with ids (after (setTokenGetter fn) w)
| reach_home w :
    reachable_with ids w ->
    reachable_with ids (after (open_page home_queries) w)
| reach_watchlist w :
    reachable_with ids w ->
    reachable_with ids (after (open_page watchlist_queries) w)
| reach_detail id w :
    ids id -> reachable_with ids w ->
    reachable_with ids (after (open_page (detail_queries id)) w)
| reach_mutation m w :
    reachable_with ids w -> reachable_with ids (after (run_mutation m) w).

(** The worlds the application can be in. *)
Definition reachable : world -> Prop := reachable_with any_id.

(** The worlds it can be in when no movie page was opened for an id that
    parses to an infinite number. *)
Definition reachable_finite : world -> Prop := reachable_with finite_id.

End Spec.

(* ===================================================================== *)
(** ** Statements of the specification read to the letter, and the
    sessions on which they are decided *)
(* ===================================================================== *)

Module Scenario.
Import JS Runtime Api QueryClient UseMovies UseWatchlist Routes Spec.

(** Any token that is not null is sent as a Bearer header of every
    request. *)
Definition bearer_for_every_token : Prop :=
  forall (w : world) (m : http_method) (u : string) (d : option value)
         fn (t : string),
    getTokenFunction w = Some fn -> fn tt = Fulfilled (Some t) ->
    forall c, In c (sent (request (create w m u d)) w) ->
              header "Authorization" c = Some ("Bearer " ++ t).

(** A backend that answers every request with the same body. *)
Definition constant_backend (body : value)
  : list event -> config -> outcome response :=
  fun _ _ => Fulfilled (mkResponse 200 body).

(** A session whose token getter resolves to the empty string. *)
Definition empty_token_world : world :=
  mkWorld None (Some (fun _ => Fulfilled (Some "")))
          (constant_backend VNull) [] [].



(** An item as the movie page hands it to the add mutation. *)
Definition matrix_item : value :=
  VObj [("tmdbId", VNum (Num 603)); ("contentType", VStr "movie");
        ("title", VStr "The Matrix"); ("posterPath", VStr "/matrix.jpg")].



(** The query function of every hook issues one GET request. *)
Definition every_hook_sends_one_request : Prop :=
  forall (h : hook) (w : world),
    exists c, sent (queryFn (options h)) w = [c] /\ method c = GET.

(** U+D800, a surrogate without its partner. *)
Definition lone_surrogate_text : string :=
  String (ascii_of_nat 237)
    (String (ascii_of_nat 160) (String (ascii_of_nat 128) EmptyString)).

(** A session that has just started, on a backend that answers. *)
Definition fresh_world : world :=
  mkWorld None None (constant_backend VNull) [] [].

(** The movie page of an id that parses to 0 or NaN shows "Movie Not
    Found". *)
Definition falsy_id_shows_not_found : Prop :=
  forall (id : string) (w : world),
    reachable w -> number_truthy (parseInt id) = false ->
    MovieDetailPage id w = MovieNotFound.

(** An id of 310 digits: 10^309, beyond the largest double. *)
Definition huge_id : string := "1" ++ zeros 309.

Definition matrix_movie : value :=
  VObj [("id", VNum (Num 603)); ("title", VStr "The Matrix");
        ("poster_path", VStr "/matrix.jpg"); ("vote_average", VNum (Num 8));
        ("release_date", VStr "1999-03-31")].

(** A session in which the movie page was opened for [huge_id], on a
    backend that answers every request with the same movie. *)
Definition after_huge_id : world :=
  after (open_page (detail_queries huge_id))
        (mkWorld None None
           (constant_backend (VObj [("data", matrix_movie)])) [] []).

End Scenario.

(* ===================================================================== *)
(** ** routes: cards, links, buttons and the sections of the movie page *)
(* ===================================================================== *)

Module Components.
Import JS Runtime Api QueryClient UseMovies UseWatchlist Routes Spec.






(** [date?.split("-")\[0\]] *)
Definition release_year (date : value) : outcome value :=
  match date with
  | VUndefined | VNull => Fulfilled VUndefined
  | VStr s => Fulfilled (VStr (fst (split_at "-" s)))
  | _ => Rejected (mkError None false "date.split is not a function")
  end.





















(** main.tsx, the effect of [InnerApp]:
    [setTokenGetter(async () => await getToken())]. *)
Definition InnerApp_effect (getToken : unit -> outcome (option string))
  : promise unit :=
  setTokenGetter (fun _ => getToken tt).

End Components.

(* ===================================================================== *)
(** ** Vocabulary of the further properties *)
(* ===================================================================== *)

Module Props.
Import JS Runtime Api QueryClient UseMovies UseWatchlist Routes Spec Components.

(** Every query of the application: the hooks and the watchlist status. *)
Inductive app_query : Type :=
| OfHook (h : hook)
| Status (tmdbId : number) (contentType : content_type).

Definition app_options (a : app_query) : query_options :=
  match a with
  | OfHook h => options h
  | Status i c => useWatchlistStatus i c
  end.

Definition app_url (a : app_query) : string :=
  match a with
  | OfHook h => endpoint h
  | Status i c =>
      "/watchlist/check?tmdbId=" ++ number_to_string i
      ++ "&contentType=" ++ content_type_string c
  end.

(** The string has no occurrence of the character. *)
Fixpoint lacks (sep : ascii) (s : string) : bool :=
  match s with
  | EmptyString => true
  | String c rest => negb (Ascii.eqb c sep) && lacks sep rest
  end.

(** The characters that structure a query string. *)
Definition reserved (c : ascii) : bool :=
  (Ascii.eqb c "?" || Ascii.eqb c "&" || Ascii.eqb c "=")%bool.

(** A query string written from pairs. *)
Definition query_string (pairs : list (string * string)) : string :=
  join "&" (map (fun '(k, v) => k ++ "=" ++ v) pairs).


(** The parameters each hook writes into its URL; the discover hook writes
    those of its filters that are set. *)
Definition url_params (h : hook) : list string :=
  match h with
  | Trending _ => ["timeWindow"]
  | Popular _ | TopRated _ | NowPlaying _ | Upcoming _ => ["page"]
  | Similar _ _ | Recommendations _ _ => ["page"]
  | Search _ _ => ["query"; "page"]
  | Discover f => map fst (discover_params f)
  | Details _ | Credits _ | Videos _ | Genres | Watchlist => []
  end.

Definition app_params (a : app_query) : list string :=
  match a with
  | OfHook h => url_params h
  | Status _ _ => ["tmdbId"; "contentType"]
  end.

(** The queries whose URL has the same parameters for all arguments. *)
Definition fixed_shape (a : app_query) : bool :=
  match a with
  | OfHook (Discover _) => false
  | _ => true
  end.

(** The names of the filters that are set, in the order of the URL. *)
Definition set_filters (f : discover_filters) : list string :=
  let str := fun (name : string) (v : option string) =>
    match v with
    | Some s => if string_truthy s then [name] else []
    | None => []
    end in
  let num := fun (name : string) (v : option number) =>
    match v with
    | Some n => if number_truthy n then [name] else []
    | None => []
    end in
  (str "with_genres" (with_genres f) ++ num "year" (year f)
   ++ str "sort_by" (sort_by f) ++ num "page" (page f))%list.

(** The hooks and the status query whose function gets as far as a
    request. *)
Definition can_send (a : app_query) : bool :=
  match a with
  | OfHook h => sendable h
  | Status _ _ => true
  end.

Definition finite (n : number) : bool := negb (infinite n).

Definition finite_page (p : option number) : bool :=
  match p with
  | Some n => finite n
  | None => true
  end.

(** No argument of the query is an infinite number. *)
Definition finite_arguments (a : app_query) : bool :=
  match a with
  | OfHook (Popular p) | OfHook (TopRated p) | OfHook (NowPlaying p)
  | OfHook (Upcoming p) | OfHook (Search _ p) => finite_page p
  | OfHook (Details i) | OfHook (Credits i) | OfHook (Videos i) => finite i
  | OfHook (Similar i p) | OfHook (Recommendations i p) =>
      (finite i && finite_page p)%bool
  | OfHook (Discover f) => (finite_page (year f) && finite_page (page f))%bool
  | Status i _ => finite i
  | OfHook (Trending _) | OfHook Genres | OfHook Watchlist => true
  end.




(** A backend that refuses every request. *)
Definition offline_error : error :=
  mkError None true "Network Error".

Definition offline_world : world :=
  mkWorld None None (fun _ _ => Rejected offline_error) [] [].

End Props.

(* ===================================================================== *)
(** ** Facts about promises and the interceptor chain *)
(* ===================================================================== *)

Section PromiseFacts.
Import JS Runtime Api Spec.

Lemma skipn_delta {A : Type} (l d : list A) :
  skipn (List.length l) (l ++ d) = d.
Proof. induction l as [|x l IH]; simpl; auto. Qed.

Lemma skipn_all_trace (l : list event) : skipn (List.length l) l = [].
Proof. induction l; simpl; auto. Qed.

Lemma reject_sent {A : Type} (e : error) (w : world) :
  sent (@reject A e) w = [].
Proof.
  unfold sent, emitted, after, reject. simpl.
  rewrite skipn_all_trace. reflexivity.
Qed.

Lemma emitted_delta {A : Type} (p : promise A) (w : world) (d : list event) :
  trace (after p w) = (trace w ++ d)%list -> emitted p w = d.
Proof. intros H. unfold emitted. rewrite H. apply skipn_delta. Qed.

Lemma requests_of_app (a b : list event) :
  requests_of (a ++ b) = (requests_of a ++ requests_of b)%list.
Proof. unfold requests_of. apply flat_map_app. Qed.

Lemma token_log_no_request (w : world) : requests_of (token_log w) = [].
Proof.
  unfold token_log.
  destruct (getTokenFunction w) as [fn|]; [destruct (fn tt)|]; reflexivity.
Qed.

(** The request interceptor always hands on a configuration. *)
Lemma request_fulfilled_eq (c : config) (w : world) :
  request_fulfilled c w
  = (Fulfilled (outgoing c w), with_trace (trace w ++ token_log w) w).
Proof.
  unfold outgoing, token_log, run, request_fulfilled, bind, read, try_catch,
    then_, await_token, console_error, emit, resolve.
  destruct w as [env getter server qs tr]; simpl.
  destruct getter as [fn|]; simpl.
  - destruct (fn tt) as [[t|]|e]; simpl;
      [destruct (string_truthy t)| |]; simpl; rewrite ?app_nil_r; reflexivity.
  - rewrite app_nil_r; reflexivity.
Qed.

Lemma at_wire_eq (c : config) (w : world) :
  at_wire c w = with_trace (trace w ++ token_log w) w.
Proof. unfold at_wire, after. rewrite request_fulfilled_eq. reflexivity. Qed.

(** The configuration that leaves the interceptor differs from the one that
    entered it in the Authorization header at most. *)
Lemma outgoing_cases (c : config) (w : world) :
  outgoing c w = c
  \/ exists fn t, getTokenFunction w = Some fn /\ fn tt = Fulfilled (Some t)
                  /\ string_truthy t = true
                  /\ outgoing c w = set_header "Authorization" ("Bearer " ++ t) c.
Proof.
  unfold outgoing, run, request_fulfilled, bind, read, try_catch, then_,
    await_token, console_error, emit, resolve.
  destruct (getTokenFunction w) as [fn|] eqn:G; simpl; auto.
  destruct (fn tt) as [[t|]|e] eqn:T; simpl; auto.
  destruct (string_truthy t) eqn:S; simpl; auto.
  right. exists fn, t. auto.
Qed.

Lemma outgoing_shape (c : config) (w : world) :
  method (outgoing c w) = method c /\ url (outgoing c w) = url c
  /\ data (outgoing c w) = data c /\ baseURL (outgoing c w) = baseURL c.
Proof.
  destruct (outgoing_cases c w) as [E|(fn & t & _ & _ & _ & E)];
    rewrite E; auto.
Qed.

(** The response interceptor logs one line and rejects with the error it
    was given. *)
Lemma response_rejected_eq (e : error) (w : world) :
  exists args,
    response_rejected e w
    = (Rejected e, with_trace (trace w ++ [ConsoleError args]) w).
Proof.
  unfold response_rejected, bind, console_error, emit, reject.
  destruct (err_response e) as [r|].
  - repeat match goal with
           | |- context [if ?b then _ else _] => destruct b
           end; eexists; reflexivity.
  - destruct (err_request e); eexists; reflexivity.
Qed.

(** [api.request]: the interceptor's configuration goes on the wire once and
    the answer of the backend comes back as it is. *)
Lemma request_eq (c : config) (w : world) :
  exists log,
    request c w
    = (answer c w,
       with_trace (trace w ++ token_log w ++ [Http (outgoing c w)] ++ log) w)
    /\ match answer c w with
       | Fulfilled _ => log = []
       | Rejected _ => exists args, log = [ConsoleError args]
       end.
Proof.
  unfold request, then_. unfold resolve at 1.
  rewrite request_fulfilled_eq.
  unfold dispatch, answer. rewrite at_wire_eq.
  generalize (outgoing c w) (token_log w). intros c1 pre.
  destruct w as [env getter server qs tr]; simpl.
  destruct (server (tr ++ pre)%list c1) as [r|e].
  - exists []. split; [|reflexivity].
    unfold response_fulfilled, resolve, with_trace; simpl.
    rewrite <- ?app_assoc. reflexivity.
  - match goal with
    | |- context [response_rejected e ?w1] =>
        destruct (response_rejected_eq e w1) as [args E]; rewrite E
    end.
    exists [ConsoleError args]. split; [|eauto].
    unfold with_trace; simpl. rewrite <- ?app_assoc. reflexivity.
Qed.

End PromiseFacts.

Section RequestFacts.
Import JS Runtime Api Spec.

Lemma request_run (c : config) (w : world) : run (request c) w = answer c w.
Proof.
  destruct (request_eq c w) as (log & E & _). unfold run. rewrite E. reflexivity.
Qed.

Lemma request_emitted (c : config) (w : world) :
  exists log,
    emitted (request c) w
    = (token_log w ++ [Http (outgoing c w)] ++ log)%list
    /\ requests_of log = []
    /\ match answer c w with
       | Fulfilled _ => log = []
       | Rejected _ => exists args, log = [ConsoleError args]
       end.
Proof.
  destruct (request_eq c w) as (log & E & L). exists log.
  split; [|split; [|exact L]].
  - apply emitted_delta. unfold after. rewrite E. reflexivity.
  - destruct (answer c w); [subst; reflexivity|].
    destruct L as [args ->]. reflexivity.
Qed.

Lemma request_sent (c : config) (w : world) :
  sent (request c) w = [outgoing c w].
Proof.
  destruct (request_emitted c w) as (log & E & N & _).
  unfold sent. rewrite E, !requests_of_app, token_log_no_request, N.
  reflexivity.
Qed.

Lemma assoc_set_assoc (k v : string) (l : list (string * string)) :
  assoc k (set_assoc k v l) = Some v.
Proof.
  induction l as [|[k' v'] l IH]; simpl.
  - rewrite String.eqb_refl. reflexivity.
  - destruct (String.eqb k k') eqn:E; simpl; rewrite ?E, ?String.eqb_refl; auto.
Qed.

Lemma header_set_header (name v : string) (c : config) :
  header name (set_header name v c) = Some v.
Proof. apply assoc_set_assoc. Qed.

Lemma string_truthy_nonempty (s : string) :
  s <> "" -> string_truthy s = true.
Proof. destruct s; [congruence | reflexivity]. Qed.

Lemma outgoing_token (c : config) (w : world) fn (t : string) :
  getTokenFunction w = Some fn -> fn tt = Fulfilled (Some t) -> t <> "" ->
  outgoing c w = set_header "Authorization" ("Bearer " ++ t) c.
Proof.
  intros G T N.
  unfold outgoing, run, request_fulfilled, bind, read, try_catch, then_,
    await_token, resolve.
  rewrite G; simpl. rewrite T; simpl.
  rewrite (string_truthy_nonempty t N). reflexivity.
Qed.

Lemma outgoing_no_token (c : config) (w : world) :
  (getTokenFunction w = None
   \/ exists fn, getTokenFunction w = Some fn
                 /\ (fn tt = Fulfilled None \/ fn tt = Fulfilled (Some "")
                     \/ exists e, fn tt = Rejected e)) ->
  outgoing c w = c.
Proof.
  unfold outgoing, run, request_fulfilled, bind, read, try_catch, then_,
    await_token, console_error, emit, resolve.
  intros [G|(fn & G & [T|[T|[e T]]])]; rewrite G; simpl; try rewrite T;
    reflexivity.
Qed.

End RequestFacts.

(* ===================================================================== *)
(** ** The API client *)
(* ===================================================================== *)

Section ApiClient.
Import JS Runtime Api Spec Scenario.

(** C1 (as written) fails: the token getter of [empty_token_world] resolves
    to the empty string, which is not null, yet [GET /watchlist] goes out
    with the headers of the instance only and no Authorization header,
    where the claim asks for the header "Bearer ". *)
Lemma C1_empty_token_sent_without_header :
  sent (api_get "/watchlist") empty_token_world
  = [mkConfig "http://localhost:3000/api" "/watchlist" GET
       [("Accept", "application/json, text/plain, */*");
        ("Content-Type", "application/json")] None 30000]
  /\ ~ bearer_for_every_token.
Proof.
  split; [reflexivity|].
  intros H.
  specialize (H empty_token_world GET "/watchlist" None
                (fun _ => Fulfilled (Some "")) "" eq_refl eq_refl
                (create empty_token_world GET "/watchlist" None)
                (or_introl eq_refl)).
  discriminate H.
Qed.

(** C1 (amended): a request made through the instance carries
    "Authorization: Bearer <token>" when the registered getter resolves to a
    token that is neither null nor empty; it carries no Authorization header
    when no getter is registered or the getter resolves to null or to the
    empty string. *)
Theorem C1_authorization_header
  (w : world) (m : http_method) (u : string) (d : option value) :
  let c := create w m u d in
  (forall fn (t : string),
      getTokenFunction w = Some fn -> fn tt = Fulfilled (Some t) -> t <> "" ->
      exists c', sent (request c) w = [c']
                 /\ header "Authorization" c' = Some ("Bearer " ++ t)
                 /\ c' = set_header "Authorization" ("Bearer " ++ t) c)
  /\ ((getTokenFunction w = None
       \/ exists fn, getTokenFunction w = Some fn
                     /\ (fn tt = Fulfilled None \/ fn tt = Fulfilled (Some ""))) ->
      sent (request c) w = [c] /\ header "Authorization" c = None).
Proof.
  intros c. split.
  - intros fn t G T N. eexists. split; [apply request_sent|].
    rewrite (outgoing_token c w fn t G T N).
    split; [apply header_set_header | reflexivity].
  - intros H. rewrite request_sent, outgoing_no_token.
    + split; reflexivity.
    + destruct H as [G|(fn & G & [T|T])]; [left; exact G | right ..];
        exists fn; auto.
Qed.

Lemma C1_authorization_header_witness :
  (exists c', sent (request (create (with_token_getter
                                       (Some (fun _ => Fulfilled (Some "tok")))
                                       empty_token_world)
                                    GET "/watchlist" None))
                   (with_token_getter (Some (fun _ => Fulfilled (Some "tok")))
                                      empty_token_world) = [c']
              /\ header "Authorization" c' = Some "Bearer tok"
              /\ c' = set_header "Authorization" "Bearer tok"
                        (create empty_token_world GET "/watchlist" None))
  /\ (sent (request (create empty_token_world POST "/watchlist" (Some VNull)))
           empty_token_world
      = [create empty_token_world POST "/watchlist" (Some VNull)]
      /\ header "Authorization"
           (create empty_token_world POST "/watchlist" (Some VNull)) = None).
Proof.
  split.
  - apply (proj1 (C1_authorization_header
                    (with_token_getter (Some (fun _ => Fulfilled (Some "tok")))
                                       empty_token_world)
                    GET "/watchlist" None)
                 (fun _ => Fulfilled (Some "tok")) "tok");
      [reflexivity | reflexivity | discriminate].
  - apply (proj2 (C1_authorization_header empty_token_world POST "/watchlist"
                    (Some VNull))).
    right. exists (fun _ => Fulfilled (Some "")).
    split; [reflexivity | right; reflexivity].
Defined.

(** C9: when the registered token getter fails, the request interceptor
    logs the failure and hands the configuration on unchanged; the request
    goes on the wire without an Authorization header and its outcome is the
    answer of the backend.  The request interceptor never rejects. *)
Theorem C9_token_failure_is_caught
  (w : world) (m : http_method) (u : string) (d : option value)
  fn (e : error) :
  getTokenFunction w = Some fn -> fn tt = Rejected e ->
  let c := create w m u d in
  let log := ConsoleError [LStr "Failed to get auth token:"; LErr e] in
  run (request_fulfilled c) w = Fulfilled c
  /\ emitted (request_fulfilled c) w = [log]
  /\ sent (request c) w = [c]
  /\ header "Authorization" c = None
  /\ run (request c) w = backend w (trace w ++ [log]) c
  /\ (forall c0 w0, exists c1, run (request_fulfilled c0) w0 = Fulfilled c1).
Proof.
  intros G T c log.
  assert (O : outgoing c w = c)
    by (apply outgoing_no_token; right; exists fn; eauto).
  assert (L : token_log w = [log])
    by (unfold token_log; rewrite G, T; reflexivity).
  repeat split.
  - unfold run. rewrite request_fulfilled_eq, O. reflexivity.
  - apply emitted_delta. unfold after.
    rewrite request_fulfilled_eq, L. reflexivity.
  - rewrite request_sent, O. reflexivity.
  - rewrite request_run. unfold answer.
    rewrite at_wire_eq, O, L. reflexivity.
  - intros c0 w0. exists (outgoing c0 w0). unfold run.
    rewrite request_fulfilled_eq. reflexivity.
Qed.

Lemma C9_token_failure_is_caught_witness :
  let w := with_token_getter
             (Some (fun _ => Rejected (mkError None false "clerk: offline")))
             empty_token_world in
  let c := create w GET "/watchlist" None in
  let log := ConsoleError [LStr "Failed to get auth token:";
                           LErr (mkError None false "clerk: offline")] in
  run (request_fulfilled c) w = Fulfilled c
  /\ emitted (request_fulfilled c) w = [log]
  /\ sent (request c) w = [c]
  /\ header "Authorization" c = None
  /\ run (request c) w = backend w (trace w ++ [log]) c
  /\ (forall c0 w0, exists c1, run (request_fulfilled c0) w0 = Fulfilled c1).
Proof.
  exact (C9_token_failure_is_caught
           (with_token_getter
              (Some (fun _ => Rejected (mkError None false "clerk: offline")))
              empty_token_world)
           GET "/watchlist" None
           (fun _ => Rejected (mkError None false "clerk: offline"))
           (mkError None false "clerk: offline") eq_refl eq_refl).
Defined.

End ApiClient.

(* ===================================================================== *)
(** ** Query functions and mutations *)
(* ===================================================================== *)

Section HookFacts.
Import JS Runtime Api QueryClient UseMovies UseWatchlist Spec.

Lemma request_trace_only (c : config) : trace_only (request c).
Proof.
  intros w. destruct (request_eq c w) as (log & E & _).
  unfold after. rewrite E. eexists. reflexivity.
Qed.

Lemma get_data_eq (u : string) (w : world) :
  get_data u w
  = (match answer (create w GET u None) w with
     | Fulfilled r => member "data" (res_data r)
     | Rejected e => Rejected e
     end,
     after (request (create w GET u None)) w).
Proof.
  unfold get_data, api_get, bind, read, get, after. simpl.
  destruct (request_eq (create w GET u None) w) as (log & E & _).
  rewrite E. simpl. destruct (answer _ w); reflexivity.
Qed.

Lemma hook_queryFn (h : hook) :
  sendable h = true -> queryFn (options h) = get_data (endpoint h).
Proof.
  destruct h; try reflexivity.
  simpl. unfold encodeURIComponent. intros ->. reflexivity.
Qed.

Lemma hook_queryFn_thrown (h : hook) :
  sendable h = false -> queryFn (options h) = reject URIError.
Proof.
  destruct h; try discriminate.
  simpl. unfold encodeURIComponent. intros ->. reflexivity.
Qed.

Lemma mutation_fn_eq (m : mutation) (w : world) :
  match m with
  | Add item => mutationFn useAddToWatchlist item w
  | Remove id => mutationFn useRemoveFromWatchlist id w
  end
  = (match answer (mutation_request m w) w with
     | Fulfilled r => Fulfilled (res_data r)
     | Rejected e => Rejected e
     end,
     after (request (mutation_request m w)) w).
Proof.
  destruct m as [item|id]; simpl;
    unfold api_post, api_delete, bind, read, resolve, after; simpl;
    match goal with
    | |- context [request ?c w] =>
        destruct (request_eq c w) as (log & E & _); rewrite E; simpl;
        destruct (answer c w); reflexivity
    end.
Qed.

(** A watchlist mutation from click to handlers, case by case. *)
Lemma run_mutation_eq (m : mutation) (w : world) :
  let c := mutation_request m w in
  match answer c w with
  | Fulfilled r =>
      run_mutation m w
      = (Fulfilled (res_data r),
         with_queries (mark_invalid [VStr "watchlist"] (queries w))
           (with_trace
              (trace w ++ token_log w
               ++ [Http (outgoing c w); Invalidate [VStr "watchlist"];
                   ToastSuccess (success_toast m)])
              w))
  | Rejected e =>
      exists args,
        run_mutation m w
        = (Rejected e,
           with_trace
             (trace w ++ token_log w
              ++ [Http (outgoing c w); ConsoleError args;
                  ToastError (error_message e (fallback_message m))])
             w)
  end.
Proof.
  intros c.
  pose proof (mutation_fn_eq m w) as F. fold c in F.
  destruct (request_eq c w) as (log & E & L).
  unfold after in F. rewrite E in F. cbn [snd] in F.
  destruct (answer c w) as [r|e].
  - subst log.
    destruct m as [item|id]; cbv beta iota in F;
      unfold run_mutation, execute, then_; rewrite F; simpl;
      unfold bind, invalidateQueries, emit, resolve, with_queries, with_trace;
      simpl; rewrite <- ?app_assoc; reflexivity.
  - destruct L as [args ->]. exists args.
    destruct m as [item|id]; cbv beta iota in F;
      unfold run_mutation, execute, then_; rewrite F; simpl;
      unfold bind, emit, reject, with_trace;
      simpl; rewrite <- ?app_assoc; reflexivity.
Qed.

End HookFacts.

Section QueryFacts.
Import JS Runtime Api QueryClient UseMovies UseWatchlist Spec.

Lemma get_data_trace_only (u : string) : trace_only (get_data u).
Proof.
  intros w. unfold after at 1. rewrite get_data_eq. simpl.
  apply request_trace_only.
Qed.

Lemma get_data_sent (u : string) (w : world) :
  sent (get_data u) w = [outgoing (create w GET u None) w].
Proof.
  unfold sent, emitted, after. rewrite get_data_eq. simpl.
  apply request_sent.
Qed.

Lemma status_trace_only (i : number) (c : content_type) :
  trace_only (queryFn (useWatchlistStatus i c)).
Proof.
  intros w. simpl. unfold api_get, bind, read, resolve, after. simpl.
  match goal with
  | |- context [request ?c w] =>
      destruct (request_eq c w) as (log & E & _); rewrite E; simpl
  end.
  destruct (answer _ w); eexists; reflexivity.
Qed.

Lemma attempt_trace_only (n : nat) (fn : promise value) :
  trace_only fn -> trace_only (attempt n fn).
Proof.
  intros T. induction n as [|n IH]; [exact T|].
  intros w. simpl. unfold then_, after.
  destruct (T w) as [d D]. unfold after in D.
  destruct (fn w) as [[a|e] w1] eqn:F; simpl in D; subst w1.
  - exists d. reflexivity.
  - destruct (IH (with_trace (trace w ++ d) w)) as [d' D'].
    unfold after in D'. rewrite D'. exists (d ++ d')%list.
    simpl. rewrite <- app_assoc. reflexivity.
Qed.

(** The first request of a fetch is the request of the query function. *)
Lemma attempt_first_request (n : nat) (u : string) (w : world) :
  exists d rest,
    after (attempt n (get_data u)) w = with_trace (trace w ++ d) w
    /\ requests_of d = outgoing (create w GET u None) w :: rest.
Proof.
  pose proof (get_data_sent u w) as S1.
  destruct (get_data_trace_only u w) as [d D].
  unfold sent in S1. rewrite (emitted_delta _ _ _ (f_equal trace D)) in S1.
  destruct n as [|n].
  - exists d, []. split; assumption.
  - simpl. unfold then_, after. unfold after in D.
    destruct (get_data u w) as [[a|e] w1] eqn:F; simpl in D; subst w1.
    + exists d, []. split; [reflexivity | assumption].
    + destruct (attempt_trace_only n _ (get_data_trace_only u)
                  (with_trace (trace w ++ d) w)) as [d' D'].
      unfold after in D'. rewrite D'.
      exists (d ++ d')%list, (requests_of d').
      split; [simpl; rewrite <- app_assoc; reflexivity|].
      rewrite requests_of_app, S1. reflexivity.
Qed.

(** A fetch writes one cache entry, under the key of the query. *)
Lemma fetch_eq (q : query_options) (w : world) :
  trace_only (queryFn q) ->
  exists d st,
    fetch q w
    = (Fulfilled tt,
       with_queries (set_query (queryKey q) st (queries w))
                    (with_trace (trace w ++ d) w))
    /\ emitted (attempt retry (queryFn q)) w = d.
Proof.
  intros T. unfold fetch.
  destruct (attempt_trace_only retry _ T w) as [d D].
  pose proof (emitted_delta _ _ _ (f_equal trace D)) as Em.
  unfold after in D.
  destruct (attempt retry (queryFn q) w) as [o w1]; simpl in D; subst w1.
  eexists d, _. split; [reflexivity | exact Em].
Qed.

Lemma find_query_mark_watchlist (c : query_cache) :
  find_query watchlist_key (mark_invalid [VStr "watchlist"] c)
  = option_map invalidate (find_query watchlist_key c).
Proof.
  induction c as [|[k st] c IH]; [reflexivity|].
  change (mark_invalid [VStr "watchlist"] ((k, st) :: c))
    with ((if partialMatchKey (VArr k) (VArr [VStr "watchlist"])
           then (k, invalidate st) else (k, st))
          :: mark_invalid [VStr "watchlist"] c).
  change (find_query watchlist_key ((k, st) :: c))
    with (if same_key watchlist_key k then Some st
          else find_query watchlist_key c).
  destruct (same_key watchlist_key k) eqn:K.
  - assert (M : partialMatchKey (VArr k) (VArr [VStr "watchlist"]) = true).
    { unfold same_key, watchlist_key in K. simpl in K.
      destruct k as [|y [|z k]]; try discriminate;
        [|rewrite andb_false_r in K; discriminate].
      rewrite andb_true_r in K.
      destruct y as [| | |[| | |]| | |]; simpl in K; try discriminate.
      simpl. rewrite andb_true_r. rewrite String.eqb_sym. exact K. }
    rewrite M. simpl. rewrite K. reflexivity.
  - destruct (partialMatchKey (VArr k) (VArr [VStr "watchlist"]));
      simpl; rewrite K; exact IH.
Qed.

Lemma cached_data_mark (f : list value) (w : world) (t : list event) :
  cached_data (with_queries (mark_invalid f (queries w)) (with_trace t w))
  = cached_data w.
Proof.
  unfold cached_data, mark_invalid. cbn [queries with_queries with_trace].
  rewrite map_map. apply map_ext. intros [k st].
  destruct (partialMatchKey (VArr k) (VArr f)); reflexivity.
Qed.

Lemma token_log_console (w : world) (ev : event) :
  In ev (token_log w) -> exists args, ev = ConsoleError args.
Proof.
  unfold token_log.
  destruct (getTokenFunction w) as [fn|]; [destruct (fn tt)|]; simpl;
    intros H; try contradiction.
  destruct H as [<-|[]]. eexists. reflexivity.
Qed.

End QueryFacts.

(* ===================================================================== *)
(** ** The watchlist mutations *)
(* ===================================================================== *)

Section Mutations.
Import JS Runtime Api QueryClient UseMovies UseWatchlist Routes Spec Scenario.

Lemma outgoing_with_queries (c : config) (q : query_cache) (w : world) :
  outgoing c (with_queries q w) = outgoing c w.
Proof.
  unfold outgoing, run, request_fulfilled, bind, read, try_catch, then_,
    await_token, console_error, emit, resolve.
  simpl. destruct (getTokenFunction w) as [fn|]; [|reflexivity].
  destruct (fn tt) as [[t|]|e]; try reflexivity.
  destruct (string_truthy t); reflexivity.
Qed.

Lemma run_mutation_run (m : mutation) (w : world) :
  run (run_mutation m) w
  = match answer (mutation_request m w) w with
    | Fulfilled r => Fulfilled (res_data r)
    | Rejected e => Rejected e
    end.
Proof.
  pose proof (run_mutation_eq m w) as H. cbv zeta in H. unfold run.
  destruct (answer (mutation_request m w) w) as [r|e].
  - rewrite H. reflexivity.
  - destruct H as [args ->]. reflexivity.
Qed.

Lemma run_mutation_sent (m : mutation) (w : world) :
  sent (run_mutation m) w = [outgoing (mutation_request m w) w].
Proof.
  pose proof (run_mutation_eq m w) as H. cbv zeta in H.
  unfold sent.
  destruct (answer (mutation_request m w) w) as [r|e].
  - erewrite emitted_delta by (unfold after; rewrite H; reflexivity).
    rewrite requests_of_app, token_log_no_request. reflexivity.
  - destruct H as [args H].
    erewrite emitted_delta by (unfold after; rewrite H; reflexivity).
    rewrite requests_of_app, token_log_no_request. reflexivity.
Qed.

Lemma run_mutation_cached_data (m : mutation) (w : world) :
  cached_data (after (run_mutation m) w) = cached_data w.
Proof.
  pose proof (run_mutation_eq m w) as H. cbv zeta in H. unfold after.
  destruct (answer (mutation_request m w) w) as [r|e].
  - rewrite H. apply cached_data_mark.
  - destruct H as [args ->]. reflexivity.
Qed.

Lemma fetch_first_request (q : query_options) (u : string) (w : world) :
  queryFn q = get_data u ->
  exists rest, sent (fetch q) w = outgoing (create w GET u None) w :: rest.
Proof.
  intros Q. destruct (attempt_first_request retry u w) as (d & rest & D & R).
  exists rest. unfold sent. rewrite <- R. f_equal.
  apply emitted_delta. unfold after, fetch. rewrite Q.
  unfold after in D.
  destruct (attempt retry (get_data u) w) as [[a|e] w1]; simpl in D; subst w1;
    reflexivity.
Qed.

(** C2: when the server request of an add or remove mutation succeeds, the
    events are, in this order, the request on the wire, the invalidation of
    the queries under ["watchlist"] and the success toast; nothing is
    invalidated before the response.  The cached ["watchlist"] query is
    marked invalid, and its mounted observer then fetches GET /watchlist
    again. *)
Theorem C2_success_invalidates_watchlist
  (m : mutation) (w : world) (r : response) :
  answer (mutation_request m w) w = Fulfilled r ->
  let c := outgoing (mutation_request m w) w in
  let w' := after (run_mutation m) w in
  run (run_mutation m) w = Fulfilled (res_data r)
  /\ emitted (run_mutation m) w
     = (token_log w
        ++ [Http c; Invalidate [VStr "watchlist"];
            ToastSuccess (success_toast m)])%list
  /\ (forall ev, In ev (token_log w) -> exists args, ev = ConsoleError args)
  /\ queries w' = mark_invalid [VStr "watchlist"] (queries w)
  /\ find_query watchlist_key (queries w')
     = option_map invalidate (find_query watchlist_key (queries w))
  /\ exists c' rest,
       sent (settle useWatchlist) w' = c' :: rest
       /\ method c' = GET /\ url c' = "/watchlist".
Proof.
  intros A c w'.
  pose proof (run_mutation_eq m w) as H. cbv zeta in H. rewrite A in H.
  assert (Q : queries w' = mark_invalid [VStr "watchlist"] (queries w))
    by (unfold w', after; rewrite H; reflexivity).
  assert (F : find_query watchlist_key (queries w')
              = option_map invalidate (find_query watchlist_key (queries w)))
    by (rewrite Q; apply find_query_mark_watchlist).
  split; [rewrite run_mutation_run, A; reflexivity|].
  split; [apply emitted_delta; unfold after; rewrite H; reflexivity|].
  split; [apply token_log_console|].
  split; [exact Q|]. split; [exact F|].
  assert (S : settle useWatchlist w' = fetch useWatchlist w').
  { unfold settle, bind, read.
    change (enabled useWatchlist) with true.
    change (queryKey useWatchlist) with watchlist_key.
    cbv beta iota. rewrite F.
    destruct (find_query watchlist_key (queries w)); reflexivity. }
  destruct (fetch_first_request useWatchlist "/watchlist" w' eq_refl)
    as [rest R].
  eexists _, rest. unfold sent, emitted, after in *. rewrite S.
  split; [exact R|].
  destruct (outgoing_shape (create w' GET "/watchlist" None) w')
    as (M & U & _). split; assumption.
Qed.

Lemma C2_success_invalidates_watchlist_witness :
  let w := mkWorld None None
             (constant_backend (VObj [("data", VArr [])]))
             [([VStr "watchlist"], mkQueryState (VArr []) None false)] [] in
  let m := Remove "w1" in
  let c := outgoing (mutation_request m w) w in
  let w' := after (run_mutation m) w in
  run (run_mutation m) w = Fulfilled (VObj [("data", VArr [])])
  /\ emitted (run_mutation m) w
     = (token_log w
        ++ [Http c; Invalidate [VStr "watchlist"];
            ToastSuccess (success_toast m)])%list
  /\ (forall ev, In ev (token_log w) -> exists args, ev = ConsoleError args)
  /\ queries w' = mark_invalid [VStr "watchlist"] (queries w)
  /\ find_query watchlist_key (queries w')
     = option_map invalidate (find_query watchlist_key (queries w))
  /\ exists c' rest,
       sent (settle useWatchlist) w' = c' :: rest
       /\ method c' = GET /\ url c' = "/watchlist".
Proof.
  exact (C2_success_invalidates_watchlist
           (Remove "w1")
           (mkWorld None None
              (constant_backend (VObj [("data", VArr [])]))
              [([VStr "watchlist"], mkQueryState (VArr []) None false)] [])
           (mkResponse 200 (VObj [("data", VArr [])])) eq_refl).
Defined.





(** C7: the add mutation sends POST /watchlist with the item it was given
    as the body, once; the request is the same whatever the query cache
    holds when the mutation runs. *)
Theorem C7_add_ignores_cache (item : value) (w : world) (q1 q2 : query_cache) :
  let c := outgoing (create w POST "/watchlist" (Some item)) w in
  sent (mutationFn useAddToWatchlist item) (with_queries q1 w) = [c]
  /\ method c = POST /\ url c = "/watchlist" /\ data c = Some item
  /\ sent (mutationFn useAddToWatchlist item) (with_queries q1 w)
     = sent (mutationFn useAddToWatchlist item) (with_queries q2 w)
  /\ sent (run_mutation (Add item)) (with_queries q1 w)
     = sent (run_mutation (Add item)) (with_queries q2 w).
Proof.
  intros c.
  assert (S : forall q,
             sent (mutationFn useAddToWatchlist item) (with_queries q w) = [c]).
  { intros q. unfold sent, emitted, after.
    rewrite (mutation_fn_eq (Add item) (with_queries q w)).
    cbn [snd]. fold (emitted (request (mutation_request (Add item)
                                          (with_queries q w)))
                            (with_queries q w)).
    fold (sent (request (mutation_request (Add item) (with_queries q w)))
               (with_queries q w)).
    rewrite request_sent. unfold c. rewrite <- (outgoing_with_queries _ q w).
    reflexivity. }
  destruct (outgoing_shape (create w POST "/watchlist" (Some item)) w)
    as (M & U & D & _).
  split; [apply S|]. split; [exact M|]. split; [exact U|]. split; [exact D|].
  split; [rewrite !S; reflexivity|].
  rewrite !run_mutation_sent.
  change (mutation_request (Add item) (with_queries q1 w))
    with (create w POST "/watchlist" (Some item)).
  change (mutation_request (Add item) (with_queries q2 w))
    with (create w POST "/watchlist" (Some item)).
  rewrite !outgoing_with_queries. reflexivity.
Qed.

(** C6: the watchlist lives on the backend.  The watchlist query sends one
    GET /watchlist and returns the data field of the response body; removing
    the item with id X sends one DELETE /watchlist/X; neither mutation
    writes watchlist data on the client (the cached data are the same before
    and after, only invalidation marks change), and what the watchlist page
    shows depends on the query cache alone. *)
Theorem C6_watchlist_on_backend (w : world) :
  (let c := outgoing (create w GET "/watchlist" None) w in
   sent (queryFn useWatchlist) w = [c]
   /\ method c = GET /\ url c = "/watchlist"
   /\ run (queryFn useWatchlist) w
      = match answer (create w GET "/watchlist" None) w with
        | Fulfilled r => member "data" (res_data r)
        | Rejected e => Rejected e
        end)
  /\ (forall X : string,
         let c := outgoing (create w DELETE ("/watchlist/" ++ X) None) w in
         sent (run_mutation (Remove X)) w = [c]
         /\ method c = DELETE /\ url c = "/watchlist/" ++ X)
  /\ (forall m, cached_data (after (run_mutation m) w) = cached_data w)
  /\ (forall signedIn env getter server t,
         WatchlistPage signedIn (mkWorld env getter server (queries w) t)
         = WatchlistPage signedIn w).
Proof.
  split; [|split; [|split]].
  - intros c.
    destruct (outgoing_shape (create w GET "/watchlist" None) w)
      as (M & U & _).
    split; [apply (get_data_sent "/watchlist" w)|].
    split; [exact M|]. split; [exact U|].
    unfold run. change (queryFn useWatchlist) with (get_data "/watchlist").
    rewrite get_data_eq. reflexivity.
  - intros X c.
    destruct (outgoing_shape (create w DELETE ("/watchlist/" ++ X) None) w)
      as (M & U & _).
    split; [apply (run_mutation_sent (Remove X) w)|]. split; assumption.
  - intros m. apply run_mutation_cached_data.
  - reflexivity.
Qed.

End Mutations.

(* ===================================================================== *)
(** ** The query hooks and the homepage rows *)
(* ===================================================================== *)

Section Queries.
Import JS Runtime Api QueryClient UseMovies UseWatchlist Routes Spec Scenario.

(** C3 (as written) fails for the search hook: for a text with a lone
    surrogate encodeURIComponent throws a URIError before [api.get] is
    reached, so the query function rejects and no request is issued, where
    the claim asks for one GET request from every hook. *)
Lemma C3_search_for_lone_surrogate_sends_nothing :
  sent (queryFn (options (Search lone_surrogate_text None))) fresh_world = []
  /\ run (queryFn (options (Search lone_surrogate_text None))) fresh_world
     = Rejected URIError
  /\ ~ every_hook_sends_one_request.
Proof.
  split; [reflexivity|]. split; [reflexivity|].
  intros H.
  destruct (H (Search lone_surrogate_text None) fresh_world) as (c & S & _).
  discriminate S.
Qed.

(** C3 (amended): the query function of every query hook sends one GET
    request to the endpoint of the hook and resolves to the data field of
    the response body, read as [body.data]; a failed request rejects with
    the error of the request.  It sends nothing else and leaves the query
    cache alone.  The one exception is a search for a text with a lone
    surrogate: encodeURIComponent throws, the query function rejects with
    the URIError and nothing is sent. *)
Theorem C3_query_hooks_pass_through (h : hook) (w : world) :
  let c := outgoing (create w GET (endpoint h) None) w in
  (sendable h = true ->
   sent (queryFn (options h)) w = [c]
   /\ method c = GET /\ url c = endpoint h /\ data c = None
   /\ run (queryFn (options h)) w
      = match answer (create w GET (endpoint h) None) w with
        | Fulfilled r => member "data" (res_data r)
        | Rejected e => Rejected e
        end
   /\ queries (after (queryFn (options h)) w) = queries w)
  /\ (sendable h = false ->
      (exists q p, h = Search q p /\ well_formed q = false)
      /\ sent (queryFn (options h)) w = []
      /\ run (queryFn (options h)) w = Rejected URIError
      /\ after (queryFn (options h)) w = w).
Proof.
  intros c. split; intros S.
  - rewrite (hook_queryFn h S).
    destruct (outgoing_shape (create w GET (endpoint h) None) w)
      as (M & U & D & _).
    split; [apply get_data_sent|].
    split; [exact M|]. split; [exact U|]. split; [exact D|].
    split.
    + unfold run. rewrite get_data_eq. reflexivity.
    + destruct (get_data_trace_only (endpoint h) w) as [d ->]. reflexivity.
  - rewrite (hook_queryFn_thrown h S).
    split; [destruct h; try discriminate S; eauto|].
    split; [|split; reflexivity].
    unfold sent, emitted, after, reject. simpl.
    rewrite skipn_all_trace. reflexivity.
Qed.

Lemma C3_query_hooks_pass_through_witness :
  (sent (queryFn (options (Search "the matrix" None))) fresh_world
   = [create fresh_world GET "/movies/search?query=the%20matrix&page=1" None]
   /\ run (queryFn (options (Search "the matrix" None))) fresh_world
      = Rejected
          (mkError None false "Cannot read properties of null (reading 'data')"))
  /\ (sent (queryFn (options (Search lone_surrogate_text None))) fresh_world
      = []
      /\ run (queryFn (options (Search lone_surrogate_text None))) fresh_world
         = Rejected URIError).
Proof.
  split.
  - destruct (proj1 (C3_query_hooks_pass_through (Search "the matrix" None)
                       fresh_world) eq_refl) as (S & _ & _ & _ & R & _).
    split; [exact S | exact R].
  - destruct (proj2 (C3_query_hooks_pass_through
                       (Search lone_surrogate_text None) fresh_world) eq_refl)
      as (_ & S & R & _).
    split; [exact S | exact R].
Defined.


Lemma find_query_set_query (k : list value) (st : query_state)
      (c : query_cache) :
  same_key k k = true -> find_query k (set_query k st c) = Some st.
Proof.
  intros R. induction c as [|[k' st'] c IH]; simpl.
  - rewrite R. reflexivity.
  - destruct (same_key k k') eqn:K; simpl; rewrite K; auto.
Qed.




End Queries.

(* ===================================================================== *)
(** ** Disabled queries and the movie page *)
(* ===================================================================== *)

Section DisabledQueries.
Import JS Runtime Api QueryClient UseMovies UseWatchlist Routes Spec Scenario.

Lemma number_falsy (n : number) :
  n = NaN \/ n = Num 0 <-> number_truthy n = false.
Proof.
  split.
  - intros [->| ->]; reflexivity.
  - destruct n as [|b|z|b d k]; simpl; auto; try discriminate.
    intros H. apply negb_false_iff, Z.eqb_eq in H. subst. auto.
Qed.

Lemma page_query_trace_only (ids : string -> Prop) (q : query_options) :
  page_query ids q -> trace_only (queryFn q).
Proof.
  intros [H|[H|(id & _ & H)]]; simpl in H;
    repeat (destruct H as [<-|H]; [|]); try contradiction;
    try apply get_data_trace_only; apply status_trace_only.
Qed.

Lemma settle_eq (q : query_options) (w : world) :
  trace_only (queryFn q) ->
  settle q w = (Fulfilled tt, w)
  \/ (enabled q = true
      /\ exists d st,
           settle q w
           = (Fulfilled tt,
              with_queries (set_query (queryKey q) st (queries w))
                           (with_trace (trace w ++ d) w))).
Proof.
  intros T. unfold settle, bind, read.
  destruct (enabled q); [|left; reflexivity].
  destruct (fetch_eq q w T) as (d & st & F & _).
  cbv beta iota.
  destruct (find_query (queryKey q) (queries w)) as [s|];
    [destruct (needs_fetch s); [|left; reflexivity]|];
    right; (split; [reflexivity|]); exists d, st; exact F.
Qed.

Lemma settle_disabled (q : query_options) (w : world) :
  enabled q = false -> settle q w = (Fulfilled tt, w).
Proof. intros E. unfold settle. rewrite E. reflexivity. Qed.

Lemma set_query_keys (key : list value) (st : query_state) (c : query_cache)
      (k : list value) (s : query_state) :
  In (k, s) (set_query key st c) -> k = key \/ exists s', In (k, s') c.
Proof.
  induction c as [|[k' s'] c IH]; simpl.
  - intros [H|[]]. inversion H. auto.
  - destruct (same_key key k'); simpl.
    + intros [H|H]; right.
      * inversion H; subst. eauto.
      * eauto.
    + intros [H|H].
      * inversion H; subst. right. eauto.
      * destruct (IH H) as [->|[s'' I]]; eauto.
Qed.

Lemma settle_keeps_invariant (ids : string -> Prop) (q : query_options)
      (w : world) :
  page_query ids q -> cache_of_enabled_queries ids w ->
  cache_of_enabled_queries ids (after (settle q) w).
Proof.
  intros P I.
  destruct (settle_eq q w (page_query_trace_only ids q P))
    as [S|(E & d & st & S)]; unfold after; rewrite S; [exact I|].
  intros k s H. simpl in H.
  apply set_query_keys in H. destruct H as [->|[s' H]]; [eauto | eauto].
Qed.

Lemma settle_all_keeps_invariant (ids : string -> Prop)
      (qs : list query_options) (w : world) :
  (forall q, In q qs -> page_query ids q) -> cache_of_enabled_queries ids w ->
  cache_of_enabled_queries ids (after (settle_all qs) w).
Proof.
  revert w. induction qs as [|q qs IH]; intros w P I; [exact I|].
  assert (Pq : page_query ids q) by (apply P; left; reflexivity).
  pose proof (settle_keeps_invariant ids q w Pq I) as I'.
  unfold after in *. simpl. unfold bind.
  destruct (settle_eq q w (page_query_trace_only ids q Pq))
    as [S|(E & d & st & S)]; rewrite S in *; simpl in I';
    apply IH; auto; intros q' H; apply P; right; exact H.
Qed.

Lemma mark_invalid_keys (f : list value) (c : query_cache)
      (k : list value) (s : query_state) :
  In (k, s) (mark_invalid f c) -> exists s', In (k, s') c.
Proof.
  unfold mark_invalid. intros H. apply in_map_iff in H.
  destruct H as ([k' s'] & E & H).
  destruct (partialMatchKey (VArr k') (VArr f)); inversion E; subst; eauto.
Qed.

Lemma mutation_keeps_invariant (ids : string -> Prop) (m : mutation)
      (w : world) :
  cache_of_enabled_queries ids w ->
  cache_of_enabled_queries ids (after (run_mutation m) w).
Proof.
  intros I. pose proof (run_mutation_eq m w) as H. cbv zeta in H.
  unfold after.
  destruct (answer (mutation_request m w) w) as [r|e].
  - rewrite H. intros k s K. simpl in K.
    apply mark_invalid_keys in K. destruct K as [s' K]. eauto.
  - destruct H as [args ->]. exact I.
Qed.

(** The cache of a reachable world holds the queries of enabled hooks
    only. *)
Lemma reachable_invariant (ids : string -> Prop) (w : world) :
  reachable_with ids w -> cache_of_enabled_queries ids w.
Proof.
  induction 1 as [env server|fn w R I|w R I|w R I|id w D R I|m w R I].
  - intros k st [].
  - exact I.
  - apply settle_all_keeps_invariant; auto.
    intros q H. left. exact H.
  - apply settle_all_keeps_invariant; auto.
    intros q H. right. left. exact H.
  - apply settle_all_keeps_invariant; auto.
    intros q H. right. right. exists id. split; assumption.
  - apply mutation_keeps_invariant. exact I.
Qed.

(** Leaving the ids with an infinite value out leaves reachable worlds. *)
Lemma reachable_finite_reachable (w : world) :
  reachable_finite w -> reachable w.
Proof.
  unfold reachable_finite, reachable.
  induction 1; try (constructor; assumption).
  apply reach_detail; [exact I | assumption].
Qed.

Lemma find_query_none (key : list value) (c : query_cache) :
  (forall k st, In (k, st) c -> same_key key k = false) ->
  find_query key c = None.
Proof.
  induction c as [|[k st] c IH]; intros H; [reflexivity|].
  simpl. rewrite (H k st (or_introl eq_refl)).
  apply IH. intros k' st' I. apply (H k' st'). right. exact I.
Qed.

(** The key of the details query of 0 is the key of no enabled query; the
    key of the details query of NaN is shared by the enabled queries of the
    infinite ids, and by no other. *)
Lemma falsy_details_key_differs (ids : string -> Prop) (n : number)
      (q : query_options) :
  n = Num 0 \/ (n = NaN /\ forall id, ids id -> finite_id id) ->
  page_query ids q -> enabled q = true ->
  same_key [VStr "movie"; VNum n] (queryKey q) = false.
Proof.
  intros F P E.
  destruct P as [H|[H|(id & D & H)]]; simpl in H;
    repeat (destruct H as [<-|H]; [|]); try contradiction;
    try (destruct F as [->|[-> _]]; reflexivity).
  all: unfold same_key; destruct F as [->|[-> F]];
    [|specialize (F id D); unfold finite_id in F];
    destruct (parseInt id) as [|b|z|b d k]; simpl in E;
    try discriminate E; try discriminate F; try reflexivity;
    destruct z; try discriminate E; reflexivity.
Qed.

Lemma falsy_details_not_cached (ids : string -> Prop) (n : number)
      (w : world) :
  n = Num 0 \/ (n = NaN /\ forall id, ids id -> finite_id id) ->
  cache_of_enabled_queries ids w ->
  find_query [VStr "movie"; VNum n] (queries w) = None.
Proof.
  intros F I. apply find_query_none. intros k st H.
  destruct (I k st H) as (q & P & E & ->).
  apply (falsy_details_key_differs ids); assumption.
Qed.

Lemma id_hook_disabled (h : id_hook) (n : number) :
  number_truthy n = false -> enabled (id_options h n) = false.
Proof. intros F. destruct h; simpl; rewrite F; reflexivity. Qed.

(** C10 (as written) fails for an id that is not a number once the movie
    page was opened for an id that parses to Infinity: ten to the 309 is
    beyond the largest double, the details query of Infinity is enabled and
    its result is cached under a key in which JSON writes Infinity as null,
    as it does NaN.  The page of "abc" then finds that entry and shows the
    movie in place of "Movie Not Found". *)
Lemma C10_not_a_number_shows_cached_movie :
  parseInt huge_id = Infinity false
  /\ parseInt "abc" = NaN
  /\ reachable after_huge_id
  /\ MovieDetailPage "abc" after_huge_id
     = MovieDetail matrix_movie matrix_movie matrix_movie
                   (VObj [("data", matrix_movie)])
  /\ ~ falsy_id_shows_not_found.
Proof.
  assert (P : parseInt huge_id = Infinity false) by (vm_compute; reflexivity).
  assert (R : reachable after_huge_id)
    by (apply reach_detail; [exact I | apply reach_start]).
  assert (V : MovieDetailPage "abc" after_huge_id
              = MovieDetail matrix_movie matrix_movie matrix_movie
                            (VObj [("data", matrix_movie)]))
    by (vm_compute; reflexivity).
  split; [exact P|]. split; [reflexivity|]. split; [exact R|].
  split; [exact V|].
  intros H. specialize (H "abc" after_huge_id R eq_refl).
  rewrite V in H. discriminate H.
Qed.

(** C10 (amended): with an id that is 0 or NaN each of the id-dependent
    queries is disabled: its observer settles without any effect and sends
    no request.  Opening the movie page with such an id sends no request at
    all and leaves the world as it was, and the page renders "Movie Not
    Found" exactly when the cache holds no data under the key of the details
    query.  For the id 0 that is so in every world the application can
    reach; for NaN it is so in every world reached without opening the movie
    page for an id that parses to an infinite number. *)
Theorem C10_falsy_id_disables_queries
  (h : id_hook) (n : number) (w : world) :
  n = NaN \/ n = Num 0 ->
  enabled (id_options h n) = false
  /\ settle (id_options h n) w = (Fulfilled tt, w)
  /\ sent (settle (id_options h n)) w = []
  /\ (forall id : string,
         parseInt id = n ->
         after (open_page (detail_queries id)) w = w
         /\ sent (open_page (detail_queries id)) w = []
         /\ (MovieDetailPage id w = MovieNotFound
             <-> truthy (previous_data (queryKey (useMovieDetails n)) w)
                 = false)
         /\ (n = Num 0 -> reachable w -> MovieDetailPage id w = MovieNotFound)
         /\ (reachable_finite w -> MovieDetailPage id w = MovieNotFound)).
Proof.
  intros F0. pose proof F0 as F. apply number_falsy in F.
  pose proof (id_hook_disabled h n F) as E.
  pose proof (settle_disabled _ w E) as S.
  split; [exact E|]. split; [exact S|].
  split; [unfold sent, emitted, after; rewrite S; simpl;
          rewrite skipn_all_trace; reflexivity|].
  intros id P.
  assert (O : open_page (detail_queries id) w = (Fulfilled tt, w)).
  { unfold open_page, detail_queries. rewrite P.
    cbv zeta. cbn [settle_all]. unfold bind.
    rewrite (settle_disabled (useMovieDetails n) w
               (id_hook_disabled IdDetails n F)).
    rewrite (settle_disabled (useMovieCredits n) w
               (id_hook_disabled IdCredits n F)).
    rewrite (settle_disabled (useSimilarMovies n None) w
               (id_hook_disabled (IdSimilar None) n F)).
    rewrite (settle_disabled (useWatchlistStatus n Movie) w
               (id_hook_disabled (IdWatchlistStatus Movie) n F)).
    reflexivity. }
  assert (V : MovieDetailPage id w = MovieNotFound
              <-> truthy (previous_data (queryKey (useMovieDetails n)) w)
                  = false).
  { unfold MovieDetailPage, useQuery, previous_data. rewrite P.
    change (enabled (useMovieDetails n)) with (number_truthy n). rewrite F.
    destruct (find_query (queryKey (useMovieDetails n)) (queries w))
      as [st|]; cbn [result_data isLoading];
      [|split; reflexivity].
    destruct (truthy (state_data st)); cbn [negb];
      split; intros H; try reflexivity; discriminate H. }
  assert (N : forall ids,
             n = Num 0 \/ (n = NaN /\ forall id, ids id -> finite_id id) ->
             reachable_with ids w -> MovieDetailPage id w = MovieNotFound).
  { intros ids C R. apply V. unfold previous_data.
    change (queryKey (useMovieDetails n)) with [VStr "movie"; VNum n].
    rewrite (falsy_details_not_cached ids n w C
               (reachable_invariant ids w R)).
    reflexivity. }
  split; [unfold after; rewrite O; reflexivity|].
  split; [unfold sent, emitted, after; rewrite O; simpl;
          rewrite skipn_all_trace; reflexivity|].
  split; [exact V|]. split.
  - intros Z R. apply (N any_id); [left; exact Z | exact R].
  - intros R. apply (N finite_id); [|exact R].
    destruct F0 as [->| ->]; [right; split; auto | left; reflexivity].
Qed.

Lemma C10_falsy_id_disables_queries_witness :
  let w := after (open_page home_queries)
                 (mkWorld None None (constant_backend VNull) [] []) in
  enabled (id_options IdDetails NaN) = false
  /\ sent (open_page (detail_queries "abc")) w = []
  /\ MovieDetailPage "abc" w = MovieNotFound
  /\ sent (settle (id_options (IdWatchlistStatus Movie) (Num 0))) w = []
  /\ MovieDetailPage "0" w = MovieNotFound.
Proof.
  intros w.
  assert (R : reachable_finite w) by (apply reach_home, reach_start).
  destruct (C10_falsy_id_disables_queries IdDetails NaN w
              (or_introl eq_refl)) as (E & _ & _ & P).
  destruct (P "abc" eq_refl) as (_ & S & _ & _ & V).
  destruct (C10_falsy_id_disables_queries (IdWatchlistStatus Movie) (Num 0) w
              (or_intror eq_refl)) as (_ & _ & S0 & P0).
  destruct (P0 "0" eq_refl) as (_ & _ & _ & V0 & _).
  split; [exact E|]. split; [exact S|]. split; [exact (V R)|].
  split; [exact S0|].
  apply V0; [reflexivity|]. apply reachable_finite_reachable. exact R.
Defined.

End DisabledQueries.

(* ===================================================================== *)
(** ** Numbers in links and URLs *)
(* ===================================================================== *)

Section NumberFacts.
Import JS Runtime Api QueryClient UseMovies UseWatchlist Routes Spec.
Import Components Props.


















End NumberFacts.

(* ===================================================================== *)
(** ** The query strings of the hooks *)
(* ===================================================================== *)

Section UrlFacts.
Import JS Runtime Api QueryClient UseMovies UseWatchlist Routes Spec.
Import Components Props.

Lemma append_assoc_s (a b c : string) : ((a ++ b) ++ c = a ++ (b ++ c))%string.
Proof. induction a as [|x a IH]; simpl; [reflexivity | rewrite IH; reflexivity]. Qed.

Lemma length_append_s (a b : string) :
  String.length (a ++ b) = (String.length a + String.length b)%nat.
Proof. induction a as [|x a IH]; simpl; [reflexivity | rewrite IH; reflexivity]. Qed.

Lemma lacks_app (sep : ascii) (a b : string) :
  lacks sep (a ++ b) = (lacks sep a && lacks sep b)%bool.
Proof.
  induction a as [|x a IH]; simpl; [reflexivity|].
  rewrite IH, andb_assoc. reflexivity.
Qed.

Lemma split_at_lacks (sep : ascii) (s : string) :
  lacks sep s = true -> split_at sep s = (s, None).
Proof.
  induction s as [|x s IH]; simpl; [reflexivity|].
  intros H. apply andb_true_iff in H. destruct H as [N L].
  apply negb_true_iff in N. rewrite N, (IH L). reflexivity.
Qed.

Lemma split_at_app (sep : ascii) (a b : string) :
  lacks sep a = true -> split_at sep (a ++ String sep b) = (a, Some b).
Proof.
  induction a as [|x a IH]; simpl.
  - rewrite Ascii.eqb_refl. reflexivity.
  - intros H. apply andb_true_iff in H. destruct H as [N L].
    apply negb_true_iff in N. rewrite N, (IH L). reflexivity.
Qed.

Lemma reserved_cases (sep : ascii) :
  reserved sep = true -> sep = "?"%char \/ sep = "&"%char \/ sep = "="%char.
Proof.
  unfold reserved. intros H.
  apply orb_true_iff in H. destruct H as [H|H];
    [apply orb_true_iff in H; destruct H as [H|H]|];
    apply Ascii.eqb_eq in H; auto.
Qed.

Lemma lacks_uint (sep : ascii) (d : Decimal.uint) :
  reserved sep = true -> lacks sep (NilEmpty.string_of_uint d) = true.
Proof.
  intros R. apply reserved_cases in R.
  induction d; simpl; auto;
    destruct R as [->|[->| ->]]; simpl; exact IHd.
Qed.

Lemma lacks_string_of_uint (sep : ascii) (d : Decimal.uint) :
  reserved sep = true -> lacks sep (NilZero.string_of_uint d) = true.
Proof.
  intros R. destruct d; simpl; try apply (lacks_uint _ _ R);
    apply reserved_cases in R; destruct R as [->|[->| ->]];
    simpl; first [reflexivity | apply lacks_uint; reflexivity].
Qed.

Lemma lacks_zeros (sep : ascii) (n : nat) :
  reserved sep = true -> lacks sep (zeros n) = true.
Proof.
  intros R. apply reserved_cases in R.
  induction n as [|n IH]; [reflexivity|].
  destruct R as [->|[->| ->]]; exact IH.
Qed.

Lemma lacks_take (sep : ascii) (n : nat) (s : string) :
  lacks sep s = true -> lacks sep (take n s) = true.
Proof.
  revert s. induction n as [|n IH]; intros [|c s]; simpl; auto.
  intros H. apply andb_true_iff in H. destruct H as [C L].
  rewrite C, (IH s L). reflexivity.
Qed.

Lemma lacks_drop (sep : ascii) (n : nat) (s : string) :
  lacks sep s = true -> lacks sep (drop n s) = true.
Proof.
  revert s. induction n as [|n IH]; intros [|c s]; simpl; auto.
  intros H. apply andb_true_iff in H. destruct H as [C L]. auto.
Qed.

Lemma lacks_minus_sign (sep : ascii) (b : bool) :
  reserved sep = true -> lacks sep (minus_sign b) = true.
Proof.
  intros R. apply reserved_cases in R.
  destruct R as [->|[->| ->]]; destruct b; reflexivity.
Qed.

Lemma lacks_exponent_part (sep : ascii) (e : Z) :
  reserved sep = true -> lacks sep (exponent_part e) = true.
Proof.
  intros R. unfold exponent_part.
  rewrite !lacks_app, (lacks_string_of_uint _ _ R).
  apply reserved_cases in R.
  destruct R as [->|[->| ->]]; destruct (e <? 0); reflexivity.
Qed.

Lemma lacks_format_decimal (sep : ascii) (d : Decimal.uint) (n : Z) :
  reserved sep = true -> lacks sep (format_decimal d n) = true.
Proof.
  intros R. pose proof (lacks_uint sep d R) as U.
  assert (P : lacks sep "." = true /\ lacks sep "0." = true).
  { apply reserved_cases in R. destruct R as [->|[->| ->]]; split; reflexivity. }
  destruct P as [P1 P2].
  unfold format_decimal.
  repeat match goal with
         | |- context [if ?b then _ else _] => destruct b
         end;
    rewrite ?lacks_app, ?lacks_zeros, ?lacks_exponent_part, ?lacks_take,
      ?lacks_drop, ?U, ?P1, ?P2 by assumption;
    reflexivity.
Qed.

Lemma lacks_number (sep : ascii) (n : number) :
  reserved sep = true -> lacks sep (number_to_string n) = true.
Proof.
  intros R.
  assert (I : forall b, lacks sep (minus_sign b ++ "Infinity") = true).
  { intros b. apply reserved_cases in R.
    destruct R as [->|[->| ->]]; destruct b; reflexivity. }
  destruct n as [|b|z|b d k]; unfold number_to_string.
  - apply reserved_cases in R. destruct R as [->|[->| ->]]; reflexivity.
  - apply I.
  - destruct (Z.abs z <? safe_limit).
    + unfold NilZero.string_of_int.
      destruct (Z.to_int z); [apply lacks_string_of_uint; exact R|].
      simpl. rewrite (lacks_string_of_uint _ _ R).
      apply reserved_cases in R. destruct R as [->|[->| ->]]; reflexivity.
    + destruct (of_integer z) as [|b'|z'|b' d' k']; try apply I.
      destruct (shortest (Z.abs z')) as [d n].
      rewrite lacks_app, lacks_minus_sign, lacks_format_decimal by exact R.
      reflexivity.
  - rewrite lacks_app, lacks_minus_sign, lacks_format_decimal by exact R.
    reflexivity.
Qed.

Lemma lacks_encode_with (sep : ascii) (keep : ascii -> bool)
      (sub : ascii -> option string) (s : string) :
  (forall c, lacks sep (match sub c with
                        | Some r => r
                        | None => if keep c then String c EmptyString
                                  else percent c
                        end) = true) ->
  lacks sep (encode_with keep sub s) = true.
Proof.
  intros P. induction s as [|c s IH]; simpl; [reflexivity|].
  rewrite lacks_app, P, IH. reflexivity.
Qed.

Lemma lacks_percent_encode (sep : ascii) (s : string) :
  reserved sep = true -> lacks sep (percent_encode s) = true.
Proof.
  intros R. apply lacks_encode_with. intros c.
  apply reserved_cases in R.
  destruct R as [->|[->| ->]];
    destruct c as [[|] [|] [|] [|] [|] [|] [|] [|]]; vm_compute; reflexivity.
Qed.

Lemma lacks_form_encode (sep : ascii) (s : string) :
  reserved sep = true -> lacks sep (form_encode s) = true.
Proof.
  intros R. apply lacks_encode_with. intros c.
  apply reserved_cases in R.
  destruct R as [->|[->| ->]];
    destruct c as [[|] [|] [|] [|] [|] [|] [|] [|]]; vm_compute; reflexivity.
Qed.

Lemma split_all_join (sep : ascii) (l : list string) (n : nat) :
  l <> [] -> (List.length l <= S n)%nat ->
  (forall s, In s l -> lacks sep s = true) ->
  split_all n sep (join (String sep EmptyString) l) = l.
Proof.
  revert n. induction l as [|s l IH]; intros n N L P; [congruence|].
  assert (Ps : lacks sep s = true) by (apply P; left; reflexivity).
  destruct l as [|s' l].
  - simpl. destruct n; [reflexivity|].
    simpl. rewrite (split_at_lacks sep s Ps). reflexivity.
  - destruct n as [|n]; [simpl in L; lia|].
    change (join (String sep EmptyString) (s :: s' :: l))
      with (s ++ String sep (join (String sep EmptyString) (s' :: l)))%string.
    cbn [split_all]. rewrite (split_at_app sep s _ Ps).
    f_equal. apply IH; [congruence | simpl in *; lia |].
    intros x H. apply P. right. exact H.
Qed.

Lemma join_length (l : list string) :
  l <> [] -> (List.length l <= S (String.length (join "&" l)))%nat.
Proof.
  induction l as [|s l IH]; [congruence|]. intros _.
  destruct l as [|s' l]; [simpl; lia|].
  change (join "&" (s :: s' :: l))
    with (s ++ String "&" (join "&" (s' :: l)))%string.
  rewrite length_append_s.
  assert (H : (List.length (s' :: l)
               <= S (String.length (join "&" (s' :: l))))%nat)
    by (apply IH; congruence).
  simpl in *. lia.
Qed.

(** A URL written as path, question mark and pairs has the names of the
    pairs as its parameters, whatever the values are, as long as no part
    holds one of the characters that structure the query string. *)
Lemma param_names_built (path : string) (pairs : list (string * string)) :
  lacks "?" path = true -> pairs <> [] ->
  (forall k v, In (k, v) pairs ->
               lacks "&" k = true /\ lacks "=" k = true
               /\ lacks "&" v = true) ->
  param_names (path ++ String "?" (query_string pairs)) = map fst pairs.
Proof.
  intros P N S. unfold param_names.
  rewrite (split_at_app "?" path _ P). cbn [snd].
  unfold query_string.
  rewrite split_all_join.
  - rewrite map_map. apply map_ext_in. intros [k v] I.
    destruct (S k v I) as (_ & E & _).
    change (k ++ "=" ++ v)%string with (k ++ String "=" v)%string.
    rewrite (split_at_app "=" k v E). reflexivity.
  - destruct pairs; [congruence | discriminate].
  - apply join_length. destruct pairs; [congruence | discriminate].
  - intros s I. apply in_map_iff in I. destruct I as ([k v] & <- & I).
    destruct (S k v I) as (A & _ & B).
    rewrite !lacks_app, A, B. reflexivity.
Qed.

Ltac pairs_ok :=
  let k := fresh "k" in
  let v := fresh "v" in
  let I := fresh "I" in
  intros k v I; simpl in I;
  repeat (destruct I as [I|I];
          [inversion I; subst; clear I;
           repeat split;
           first [ reflexivity
                 | apply lacks_number; reflexivity
                 | apply lacks_percent_encode; reflexivity
                 | apply lacks_form_encode; reflexivity ]
          |]);
  contradiction.

Ltac built path pairs :=
  match goal with
  | |- param_names ?u = _ =>
      replace u with (path ++ String "?" (query_string pairs))%string
        by (unfold query_string; simpl; rewrite ?append_assoc_s; reflexivity);
      rewrite param_names_built;
      [reflexivity
      | rewrite ?lacks_app, ?lacks_number by reflexivity; reflexivity
      | discriminate
      | pairs_ok]
  end.

Ltac no_query :=
  unfold param_names;
  rewrite split_at_lacks;
  [reflexivity
  | simpl; rewrite ?lacks_app, ?lacks_number by reflexivity; reflexivity].

(** X3: the arguments of a query never change the shape of its URL: for the
    watchlist status query and every hook but discover, the URL has exactly
    the parameters the hook writes (none, page, timeWindow, query and page,
    tmdbId and contentType), whatever the ids, the page numbers and the
    search text are; a search text with ampersands, equals signs or question
    marks cannot add or rename a parameter. *)
Theorem X3_arguments_keep_url_shape (a : app_query) :
  fixed_shape a = true -> param_names (app_url a) = app_params a.
Proof.
  intros F. destruct a as [h|i c].
  - destruct h as [t|p|p|p|p|i|i|i|i p|i p|q p|f| |]; try discriminate F;
      cbn [app_url app_params url_params endpoint].
    + destruct t as [[|]|]; reflexivity.
    + built "/movies/popular"
            [("page", number_to_string (default (Num 1) p))].
    + built "/movies/top-rated"
            [("page", number_to_string (default (Num 1) p))].
    + built "/movies/now-playing"
            [("page", number_to_string (default (Num 1) p))].
    + built "/movies/upcoming"
            [("page", number_to_string (default (Num 1) p))].
    + no_query.
    + no_query.
    + no_query.
    + built ("/movies/" ++ number_to_string i ++ "/similar")%string
            [("page", number_to_string (default (Num 1) p))].
    + built ("/movies/" ++ number_to_string i ++ "/recommendations")%string
            [("page", number_to_string (default (Num 1) p))].
    + built "/movies/search"
            [("query", percent_encode q);
             ("page", number_to_string (default (Num 1) p))].
    + reflexivity.
    + reflexivity.
  - cbn [app_url app_params].
    destruct c.
    + built "/watchlist/check"
            [("tmdbId", number_to_string i); ("contentType", "movie")].
    + built "/watchlist/check"
            [("tmdbId", number_to_string i); ("contentType", "tv")].
Qed.

Lemma X3_arguments_keep_url_shape_witness :
  param_names (app_url (OfHook (Search "a&page=9?x=1" None)))
  = ["query"; "page"].
Proof.
  exact (X3_arguments_keep_url_shape
           (OfHook (Search "a&page=9?x=1" None)) eq_refl).
Defined.

Lemma params_to_string_pairs (p : URLSearchParams) :
  params_to_string p
  = query_string (map (fun '(k, v) => (form_encode k, form_encode v)) p).
Proof.
  unfold params_to_string, query_string. rewrite map_map.
  f_equal. apply map_ext. intros [k v]. reflexivity.
Qed.

Lemma discover_keys (f : discover_filters) :
  map fst (discover_params f) = set_filters f.
Proof.
  unfold discover_params, set_filters, append_if_string, append_if_number.
  destruct (with_genres f) as [g|]; [destruct (string_truthy g)|];
    (destruct (year f) as [y|]; [destruct (number_truthy y)|]);
    (destruct (sort_by f) as [s|]; [destruct (string_truthy s)|]);
    (destruct (page f) as [p|]; [destruct (number_truthy p)|]);
    reflexivity.
Qed.

Lemma set_filters_names (f : discover_filters) (k : string) :
  In k (set_filters f) ->
  k = "with_genres" \/ k = "year" \/ k = "sort_by" \/ k = "page".
Proof.
  unfold set_filters. intros H.
  repeat (apply in_app_or in H; destruct H as [H|H]);
    repeat match type of H with
           | In _ (match ?o with Some _ => _ | None => _ end) => destruct o
           | In _ (if ?b then _ else _) => destruct b
           end;
    simpl in H; intuition.
Qed.

(** X4: the URL of the discover query has one parameter for each filter
    that is set, in the order with_genres, year, sort_by, page, and no
    other; a filter that is missing, the empty string, 0 or NaN is left out,
    and no filter value can add a parameter.  Without any filter set the URL
    is /movies/discover? with an empty query string. *)
Theorem X4_discover_url_lists_set_filters (f : discover_filters) :
  (set_filters f <> [] ->
   param_names (endpoint (Discover f)) = set_filters f)
  /\ (set_filters f = [] -> endpoint (Discover f) = "/movies/discover?").
Proof.
  pose proof (discover_keys f) as K. split.
  - intros N. cbn [endpoint]. rewrite params_to_string_pairs.
    change ("/movies/discover?"
            ++ query_string
                 (map (fun '(k, v) => (form_encode k, form_encode v))
                      (discover_params f)))%string
      with ("/movies/discover"
            ++ String "?"
                 (query_string
                    (map (fun '(k, v) => (form_encode k, form_encode v))
                         (discover_params f))))%string.
    rewrite param_names_built.
    + rewrite <- K, map_map. apply map_ext_in. intros [k v] I. simpl.
      assert (Ik : In k (set_filters f))
        by (rewrite <- K; apply (in_map fst _ _ I)).
      apply set_filters_names in Ik.
      destruct Ik as [->|[->|[->| ->]]]; reflexivity.
    + reflexivity.
    + rewrite <- K in N. destruct (discover_params f);
        [exfalso; apply N; reflexivity | discriminate].
    + intros k v I. apply in_map_iff in I.
      destruct I as ([k0 v0] & E & _). inversion E; subst.
      repeat split; apply lacks_form_encode; reflexivity.
  - intros E. rewrite <- K in E. cbn [endpoint].
    destruct (discover_params f); [reflexivity | discriminate E].
Qed.

Lemma X4_discover_url_lists_set_filters_witness :
  param_names
    (endpoint (Discover (mkFilters (Some "28&page=7") (Some (Num 0))
                                   (Some "popularity.desc") (Some (Num 2)))))
  = ["with_genres"; "sort_by"; "page"]
  /\ endpoint (Discover (mkFilters (Some "") (Some NaN) None (Some (Num 0))))
     = "/movies/discover?".
Proof.
  split.
  - apply (proj1 (X4_discover_url_lists_set_filters
                    (mkFilters (Some "28&page=7") (Some (Num 0))
                               (Some "popularity.desc") (Some (Num 2))))).
    discriminate.
  - apply (proj2 (X4_discover_url_lists_set_filters
                    (mkFilters (Some "") (Some NaN) None (Some (Num 0))))).
    reflexivity.
Defined.

End UrlFacts.

(* ===================================================================== *)
(** ** More on the API client *)
(* ===================================================================== *)

Section ApiClientMore.
Import JS Runtime Api QueryClient UseMovies UseWatchlist Routes Spec Scenario.
Import Components Props.

Lemma assoc_set_assoc_other (k k' v : string) (l : list (string * string)) :
  k' <> k -> assoc k' (set_assoc k v l) = assoc k' l.
Proof.
  intros N. apply String.eqb_neq in N.
  induction l as [|[k0 v0] l IH]; simpl.
  - rewrite N. reflexivity.
  - destruct (String.eqb k k0) eqn:E; simpl.
    + apply String.eqb_eq in E. subst k0. rewrite N. reflexivity.
    + rewrite IH. reflexivity.
Qed.

Lemma set_assoc_length (k v : string) (l : list (string * string)) :
  assoc k l <> None -> List.length (set_assoc k v l) = List.length l.
Proof.
  induction l as [|[k0 v0] l IH]; simpl; [congruence|].
  destruct (String.eqb k k0); simpl; auto.
Qed.

Lemma outgoing_frame (c : config) (w : world) :
  (baseURL (outgoing c w) = baseURL c /\ url (outgoing c w) = url c
   /\ method (outgoing c w) = method c /\ data (outgoing c w) = data c
   /\ timeout (outgoing c w) = timeout c)
  /\ (forall name, name <> "Authorization" ->
                   header name (outgoing c w) = header name c).
Proof.
  split.
  - destruct (outgoing_cases c w) as [E|(fn & t & _ & _ & _ & E)];
      rewrite E; repeat split; reflexivity.
  - intros name N.
    destruct (outgoing_cases c w) as [E|(fn & t & _ & _ & _ & E)];
      rewrite E; [reflexivity|].
    apply assoc_set_assoc_other. exact N.
Qed.

(** X5: the request interceptor touches the Authorization header and
    nothing else: base URL, URL, method, body, timeout and every other
    header of the configuration leave it as they entered.  With a token
    that is not empty the header is set to the Bearer value even when the
    configuration already had an Authorization header, which is replaced in
    place, not duplicated. *)
Theorem X5_interceptor_touches_authorization_only (c : config) (w : world) :
  (baseURL (outgoing c w) = baseURL c /\ url (outgoing c w) = url c
   /\ method (outgoing c w) = method c /\ data (outgoing c w) = data c
   /\ timeout (outgoing c w) = timeout c)
  /\ (forall name, name <> "Authorization" ->
                   header name (outgoing c w) = header name c)
  /\ (forall fn (t : string),
         getTokenFunction w = Some fn -> fn tt = Fulfilled (Some t) ->
         t <> "" ->
         header "Authorization" (outgoing c w) = Some ("Bearer " ++ t)
         /\ (header "Authorization" c <> None ->
             List.length (headers (outgoing c w)) = List.length (headers c))).
Proof.
  destruct (outgoing_frame c w) as (A & B).
  split; [exact A|]. split; [exact B|].
  intros fn t G T N. rewrite (outgoing_token c w fn t G T N).
  split; [apply header_set_header|].
  intros H. apply set_assoc_length. exact H.
Qed.

Lemma X5_interceptor_touches_authorization_only_witness :
  let w := with_token_getter (Some (fun _ => Fulfilled (Some "tok")))
                             empty_token_world in
  let c := mkConfig "http://localhost:3000/api" "/watchlist" GET
             [("Authorization", "Basic abc");
              ("Content-Type", "application/json")] None 30000 in
  header "Content-Type" (outgoing c w) = Some "application/json"
  /\ header "Authorization" (outgoing c w) = Some "Bearer tok"
  /\ List.length (headers (outgoing c w)) = 2%nat.
Proof.
  intros w c.
  destruct (X5_interceptor_touches_authorization_only c w) as (_ & F & A).
  destruct (A (fun _ => Fulfilled (Some "tok")) "tok" eq_refl eq_refl)
    as (B & L); [discriminate|].
  split; [rewrite F; [reflexivity | discriminate]|].
  split; [exact B|].
  rewrite L; [reflexivity | discriminate].
Defined.

Lemma status_fn_eq (i : number) (ct : content_type) (w : world) :
  queryFn (useWatchlistStatus i ct) w
  = (match answer (create w GET (app_url (Status i ct)) None) w with
     | Fulfilled r => Fulfilled (res_data r)
     | Rejected e => Rejected e
     end,
     after (request (create w GET (app_url (Status i ct)) None)) w).
Proof.
  simpl. unfold api_get, bind, read, resolve, after. simpl.
  match goal with
  | |- context [request ?c w] =>
      destruct (request_eq c w) as (log & E & _); rewrite E; simpl;
      destruct (answer c w); reflexivity
  end.
Qed.

Lemma status_sent (i : number) (ct : content_type) (w : world) :
  sent (queryFn (useWatchlistStatus i ct)) w
  = [outgoing (create w GET (app_url (Status i ct)) None) w].
Proof.
  unfold sent, emitted, after. rewrite status_fn_eq. cbn [snd].
  exact (request_sent (create w GET (app_url (Status i ct)) None) w).
Qed.


(** X7: every request configuration that a query function or a watchlist
    mutation hands to the adapter carries the defaults of the axios
    instance: its base URL is VITE_API_URL when that is set and not empty
    and http://localhost:3000/api otherwise, its timeout is 30000 ms, and
    among its headers are the Accept header of axios and the Content-Type
    application/json of the instance. *)
Theorem X7_requests_carry_instance_defaults (w : world) (c : config) :
  (exists a, In c (sent (queryFn (app_options a)) w))
  \/ (exists m, In c (sent (run_mutation m) w)) ->
  baseURL c = default_baseURL (VITE_API_URL w)
  /\ (baseURL c = "http://localhost:3000/api"
      \/ (VITE_API_URL w = Some (baseURL c) /\ baseURL c <> ""))
  /\ timeout c = 30000
  /\ header "Accept" c = Some "application/json, text/plain, */*"
  /\ header "Content-Type" c = Some "application/json".
Proof.
  intros H.
  assert (E : exists m u d, c = outgoing (create w m u d) w).
  { destruct H as [[a I]|[m I]].
    - destruct a as [h|i ct]; cbn [app_options] in I.
      + destruct (sendable h) eqn:S.
        * rewrite (hook_queryFn h S), get_data_sent in I.
          destruct I as [<-|[]]. eauto.
        * rewrite (hook_queryFn_thrown h S), reject_sent in I.
          destruct I.
      + rewrite status_sent in I. destruct I as [<-|[]]. eauto.
    - rewrite run_mutation_sent in I. destruct I as [<-|[]].
      destruct m; simpl; eauto. }
  destruct E as (m & u & d & ->).
  destruct (outgoing_frame (create w m u d) w) as ((B & _ & _ & _ & T) & F).
  rewrite B, T, !F by discriminate.
  split; [reflexivity|]. split; [|repeat split; reflexivity].
  simpl. unfold default_baseURL.
  destruct (VITE_API_URL w) as [s|]; [|left; reflexivity].
  destruct s; simpl; [left; reflexivity|].
  right. split; [reflexivity | discriminate].
Qed.

Lemma X7_requests_carry_instance_defaults_witness :
  let w := mkWorld (Some "https://api.example.org") None
                   (constant_backend VNull) [] [] in
  let c := create w POST "/watchlist" (Some matrix_item) in
  baseURL c = "https://api.example.org"
  /\ timeout c = 30000
  /\ header "Accept" c = Some "application/json, text/plain, */*"
  /\ header "Content-Type" c = Some "application/json".
Proof.
  intros w c.
  destruct (X7_requests_carry_instance_defaults w c) as (B & _ & T & A & H).
  { right. exists (Add matrix_item). left. reflexivity. }
  split; [exact B|]. split; [exact T|]. split; [exact A | exact H].
Defined.

Lemma outgoing_same_getter (c : config) (w w' : world) :
  getTokenFunction w' = getTokenFunction w -> outgoing c w' = outgoing c w.
Proof.
  intros G.
  unfold outgoing, run, request_fulfilled, bind, read, try_catch, then_,
    await_token, console_error, emit, resolve.
  rewrite G. destruct (getTokenFunction w) as [fn|]; [|reflexivity].
  destruct (fn tt) as [[t|]|e]; try reflexivity.
  destruct (string_truthy t); reflexivity.
Qed.

(** X8: registering a token getter sends nothing and leaves cache and trace
    as they were; what [InnerApp] registers forwards the outcome of
    [getToken]; a later registration replaces an earlier one, so that the
    requests made afterwards carry the token of the getter registered
    last. *)
Theorem X8_last_registered_getter_wins
  (g1 g2 : unit -> outcome (option string)) (c : config) (w : world) :
  let w1 := after (InnerApp_effect g1) w in
  let w2 := after (InnerApp_effect g2) w1 in
  (queries w2 = queries w /\ trace w2 = trace w
   /\ emitted (InnerApp_effect g2) w1 = [])
  /\ outgoing c w2 = outgoing c (after (InnerApp_effect g2) w)
  /\ (forall t : string,
         g2 tt = Fulfilled (Some t) -> t <> "" ->
         header "Authorization" (outgoing c w2) = Some ("Bearer " ++ t))
  /\ ((g2 tt = Fulfilled None \/ exists e, g2 tt = Rejected e) ->
      outgoing c w2 = c).
Proof.
  intros w1 w2. split; [|split; [|split]].
  - split; [reflexivity|]. split; [reflexivity|].
    unfold emitted. simpl. apply skipn_all_trace.
  - apply outgoing_same_getter. reflexivity.
  - intros t T N.
    rewrite (outgoing_token c w2 (fun _ => g2 tt) t eq_refl T N).
    apply header_set_header.
  - intros H. apply outgoing_no_token. right. exists (fun _ => g2 tt).
    split; [reflexivity|]. destruct H as [H|H]; auto.
Qed.

Lemma X8_last_registered_getter_wins_witness :
  let w2 := after (InnerApp_effect (fun _ => Fulfilled (Some "new")))
                  (after (InnerApp_effect (fun _ => Fulfilled (Some "old")))
                         empty_token_world) in
  let c := create empty_token_world GET "/watchlist" None in
  header "Authorization" (outgoing c w2) = Some "Bearer new"
  /\ outgoing c (after (InnerApp_effect (fun _ => Fulfilled None)) w2) = c.
Proof.
  intros w2 c. split.
  - destruct (X8_last_registered_getter_wins
                (fun _ => Fulfilled (Some "old"))
                (fun _ => Fulfilled (Some "new")) c empty_token_world)
      as (_ & _ & H & _).
    apply (H "new"); [reflexivity | discriminate].
  - destruct (X8_last_registered_getter_wins
                (fun _ => Fulfilled (Some "new"))
                (fun _ => Fulfilled None) c
                (after (InnerApp_effect (fun _ => Fulfilled (Some "old")))
                       empty_token_world))
      as (_ & _ & _ & H).
    apply H. left. reflexivity.
Defined.

End ApiClientMore.

(* ===================================================================== *)
(** ** Retries and disabled searches *)
(* ===================================================================== *)

Section FetchFacts.
Import JS Runtime Api QueryClient UseMovies UseWatchlist Routes Spec Scenario.
Import Components Props.

Lemma with_trace_id (w : world) : with_trace (trace w) w = w.
Proof. destruct w; reflexivity. Qed.

Lemma app_fn_trace_only (a : app_query) : trace_only (queryFn (app_options a)).
Proof.
  destruct a as [h|i ct]; cbn [app_options].
  - destruct (sendable h) eqn:S.
    + rewrite (hook_queryFn h S). apply get_data_trace_only.
    + rewrite (hook_queryFn_thrown h S). intros w. exists [].
      unfold after, reject. simpl. rewrite app_nil_r, with_trace_id.
      reflexivity.
  - apply status_trace_only.
Qed.

Lemma app_fn_sent (a : app_query) (w : world) :
  can_send a = true ->
  sent (queryFn (app_options a)) w
  = [outgoing (create w GET (app_url a) None) w].
Proof.
  destruct a as [h|i ct]; cbn [app_options app_url can_send]; intros S.
  - rewrite (hook_queryFn h S). apply get_data_sent.
  - apply status_sent.
Qed.


(** With the retry count of main.tsx a fetch runs the query function once
    when it resolves and twice when its first run rejects. *)
Lemma fetch_sent (a : app_query) (w : world) :
  can_send a = true ->
  let c := outgoing (create w GET (app_url a) None) w in
  sent (fetch (app_options a)) w
  = match run (queryFn (app_options a)) w with
    | Fulfilled _ => [c]
    | Rejected _ => [c; c]
    end.
Proof.
  intros OK c.
  pose proof (app_fn_sent a w OK) as S1. fold c in S1.
  destruct (app_fn_trace_only a w) as [d D].
  unfold sent in S1. rewrite (emitted_delta _ _ _ (f_equal trace D)) in S1.
  unfold sent, emitted, after, fetch, retry, run.
  cbn [attempt]. unfold then_. unfold after in D.
  destruct (queryFn (app_options a) w) as [[x|e] w1] eqn:F;
    cbn [fst snd] in *; subst w1.
  - unfold resolve. simpl. rewrite skipn_delta. exact S1.
  - set (w1 := with_trace (trace w ++ d) w).
    pose proof (app_fn_sent a w1 OK) as S2.
    destruct (app_fn_trace_only a w1) as [d2 D2].
    unfold sent in S2. rewrite (emitted_delta _ _ _ (f_equal trace D2)) in S2.
    replace (outgoing (create w1 GET (app_url a) None) w1) with c in S2
      by (symmetry; apply (outgoing_same_getter _ w w1); reflexivity).
    unfold after in D2.
    destruct (queryFn (app_options a) w1) as [[x|e2] w2];
      cbn [snd] in D2; subst w2; simpl; rewrite <- app_assoc, skipn_delta,
        requests_of_app, S1, S2; reflexivity.
Qed.

Lemma string_length_zero (s : string) :
  Nat.ltb 0 (String.length s) = negb (String.eqb s "").
Proof. destruct s; reflexivity. Qed.

(** X10: a search with an empty text is disabled: its observer settles
    without any effect and no request is sent; every other text, blank ones
    included, enables the query. *)
Theorem X10_empty_search_sends_nothing (p : option number) (w : world) :
  settle (useSearchMovies "" p) w = (Fulfilled tt, w)
  /\ sent (settle (useSearchMovies "" p)) w = []
  /\ (forall q : string, q <> "" -> enabled (useSearchMovies q p) = true).
Proof.
  assert (S : settle (useSearchMovies "" p) w = (Fulfilled tt, w))
    by (apply settle_disabled; reflexivity).
  split; [exact S|]. split.
  - unfold sent, emitted, after. rewrite S. simpl.
    rewrite skipn_all_trace. reflexivity.
  - intros q N. cbn [enabled useSearchMovies]. rewrite string_length_zero.
    apply String.eqb_neq in N. rewrite N. reflexivity.
Qed.

Lemma X10_empty_search_sends_nothing_witness :
  sent (settle (useSearchMovies "" None)) empty_token_world = []
  /\ enabled (useSearchMovies " " None) = true.
Proof.
  destruct (X10_empty_search_sends_nothing None empty_token_world)
    as (_ & S & E).
  split; [exact S|]. apply E. discriminate.
Defined.

End FetchFacts.

(* ===================================================================== *)
(** ** Query keys *)
(* ===================================================================== *)

Section KeyFacts.
Import JS Runtime Api QueryClient UseMovies UseWatchlist Routes Spec Scenario.
Import Components Props.

Ltac split_key H :=
  repeat match type of H with
         | (_ && _)%bool = true =>
             let H1 := fresh "E" in
             apply andb_true_iff in H; destruct H as [H1 H];
             try apply String.eqb_eq in H1; try apply Z.eqb_eq in H1
         end;
  try apply String.eqb_eq in H; try apply Z.eqb_eq in H.

(** Two numbers that are written alike into a key are the same, the
    infinities apart, which are written like NaN. *)
Lemma number_key_eq (n m : number) :
  finite n = true -> finite m = true ->
  hash_eqb (VNum n) (VNum m) = true -> n = m.
Proof.
  destruct n as [|a|x|a d k], m as [|b|y|b e l]; simpl; intros Fn Fm H;
    try discriminate; try reflexivity.
  - apply Z.eqb_eq in H. subst. reflexivity.
  - apply andb_true_iff in H. destruct H as [H K].
    apply andb_true_iff in H. destruct H as [S D].
    apply Z.eqb_eq in K. apply Bool.eqb_prop in S.
    apply Decimal.internal_uint_dec_bl in D. subst. reflexivity.
Qed.

Lemma finite_default (p : option number) :
  finite_page p = true -> finite (default (Num 1) p) = true.
Proof. destruct p; simpl; auto. Qed.

Lemma hash_obj_cons (k k' : string) (x y : value)
      (l m : list (string * value)) :
  hash_eqb (VObj ((k, x) :: l)) (VObj ((k', y) :: m))
  = (String.eqb k k' && hash_eqb x y && hash_eqb (VObj l) (VObj m))%bool.
Proof. reflexivity. Qed.

Lemma hash_obj_nil : hash_eqb (VObj []) (VObj []) = true.
Proof. reflexivity. Qed.

Lemma hash_obj_nil_cons (p : string * value) (m : list (string * value)) :
  hash_eqb (VObj []) (VObj (p :: m)) = false.
Proof. reflexivity. Qed.

Lemma hash_obj_cons_nil (p : string * value) (l : list (string * value)) :
  hash_eqb (VObj (p :: l)) (VObj []) = false.
Proof. destruct p. reflexivity. Qed.

Lemma hash_arr_cons (x y : value) (l m : list value) :
  hash_eqb (VArr (x :: l)) (VArr (y :: m))
  = (hash_eqb x y && hash_eqb (VArr l) (VArr m))%bool.
Proof. reflexivity. Qed.

Lemma hash_arr_nil : hash_eqb (VArr []) (VArr []) = true.
Proof. reflexivity. Qed.

Lemma hash_arr_nil_cons (y : value) (m : list value) :
  hash_eqb (VArr []) (VArr (y :: m)) = false.
Proof. reflexivity. Qed.

Lemma hash_arr_cons_nil (x : value) (l : list value) :
  hash_eqb (VArr (x :: l)) (VArr []) = false.
Proof. reflexivity. Qed.

Lemma hash_str (a b : string) : hash_eqb (VStr a) (VStr b) = String.eqb a b.
Proof. reflexivity. Qed.

Ltac key_step H :=
  rewrite ?hash_arr_cons, ?hash_arr_nil, ?hash_arr_nil_cons,
    ?hash_arr_cons_nil, ?hash_obj_cons, ?hash_obj_nil, ?hash_obj_nil_cons,
    ?hash_obj_cons_nil, ?hash_str in H;
  cbn [String.eqb Ascii.eqb Bool.eqb andb] in H;
  rewrite ?andb_false_r, ?andb_true_r in H.

Ltac finite_numbers :=
  repeat match goal with
         | F : (_ && _)%bool = true |- _ =>
             apply andb_true_iff in F; destruct F
         end;
  repeat match goal with
         | E : hash_eqb (VNum _) (VNum _) = true |- _ =>
             apply number_key_eq in E;
             [|first [assumption | apply finite_default; assumption] ..]
         end.

Lemma filters_key_eq (f g : discover_filters) :
  finite_page (year f) = true -> finite_page (page f) = true ->
  finite_page (year g) = true -> finite_page (page g) = true ->
  hash_eqb (filters_value f) (filters_value g) = true -> f = g.
Proof.
  destruct f as [g1 y1 s1 p1], g as [g2 y2 s2 p2].
  unfold filters_value. cbn [with_genres year sort_by page].
  intros Fy1 Fp1 Fy2 Fp2.
  destruct g1 as [a1|], g2 as [a2|], y1 as [b1|], y2 as [b2|],
    s1 as [c1|], s2 as [c2|], p1 as [d1|], p2 as [d2|];
    cbn [app]; intros H; key_step H; try discriminate H;
    split_key H; cbn [finite_page] in *; finite_numbers; subst; reflexivity.
Qed.

(** X11: the cache key of a query determines its URL, as long as no
    argument is an infinite number: two queries of the application (any
    hooks, any such arguments) that share a cache entry request the same
    URL, so that a cache entry never holds the answer to another request
    than the one its query would make.  An infinite argument breaks this:
    it is written into the key as null, like NaN, and into the URL as
    Infinity. *)
Theorem X11_same_key_same_url :
  (forall a b : app_query,
      finite_arguments a = true -> finite_arguments b = true ->
      same_key (queryKey (app_options a)) (queryKey (app_options b)) = true ->
      app_url a = app_url b)
  /\ (forall negative : bool,
        same_key (queryKey (app_options (OfHook (Details NaN))))
                 (queryKey (app_options
                              (OfHook (Details (Infinity negative))))) = true
        /\ app_url (OfHook (Details NaN)) = "/movies/NaN"
        /\ app_url (OfHook (Details (Infinity negative)))
           = "/movies/" ++ minus_sign negative ++ "Infinity").
Proof.
  split; [|intros [|]; repeat split; reflexivity].
  unfold same_key. intros a b Fa Fb H.
  destruct a as [[t|p|p|p|p|i|i|i|i p|i p|q p|f| |]|i c],
    b as [[t'|p'|p'|p'|p'|i'|i'|i'|i' p'|i' p'|q' p'|f'| |]|i' c'];
    cbn [app_options options queryKey useTrendingMovies usePopularMovies
           useTopRatedMovies useNowPlayingMovies useUpcomingMovies
           useMovieDetails useMovieCredits useMovieVideos useSimilarMovies
           useMovieRecommendations useSearchMovies useDiscoverMovies
           useMovieGenres useWatchlist useWatchlistStatus watchlist_key] in H;
    key_step H; try discriminate H; try reflexivity;
    split_key H; cbn [finite_arguments] in Fa, Fb;
    finite_numbers;
    repeat match goal with
           | E : hash_eqb (filters_value _) (filters_value _) = true |- _ =>
               apply filters_key_eq in E; [|assumption ..]
           end;
    cbn [app_url endpoint]; congruence.
Qed.

Lemma X11_same_key_same_url_witness :
  app_url (OfHook (Popular None)) = app_url (OfHook (Popular (Some (Num 1)))).
Proof.
  exact (proj1 X11_same_key_same_url (OfHook (Popular None))
           (OfHook (Popular (Some (Num 1)))) eq_refl eq_refl eq_refl).
Defined.

End KeyFacts.

(* ===================================================================== *)
(** ** What a watchlist mutation invalidates *)
(* ===================================================================== *)

Section InvalidationFacts.
Import JS Runtime Api QueryClient UseMovies UseWatchlist Routes Spec Scenario.
Import Components Props.

Lemma find_query_mark (key f : list value) (b : bool) (c : query_cache) :
  (forall k, same_key key k = true ->
             partialMatchKey (VArr k) (VArr f) = b) ->
  find_query key (mark_invalid f c)
  = option_map (fun st => if b then invalidate st else st) (find_query key c).
Proof.
  intros M. induction c as [|[k st] c IH]; [reflexivity|].
  change (mark_invalid f ((k, st) :: c))
    with ((if partialMatchKey (VArr k) (VArr f)
           then (k, invalidate st) else (k, st)) :: mark_invalid f c).
  change (find_query key ((k, st) :: c))
    with (if same_key key k then Some st else find_query key c).
  destruct (same_key key k) eqn:K.
  - rewrite (M k K). destruct b; simpl; rewrite K; reflexivity.
  - destruct (partialMatchKey (VArr k) (VArr f)); simpl; rewrite K; exact IH.
Qed.

(** A cached key that hashes like a key starting with the string [a] is
    matched by the filter [\[b\]] exactly when [a] is [b]. *)
Lemma head_match (a b : string) (rest k : list value) :
  same_key (VStr a :: rest) k = true ->
  partialMatchKey (VArr k) (VArr [VStr b]) = String.eqb a b.
Proof.
  unfold same_key. destruct k as [|y k]; [discriminate|].
  rewrite hash_arr_cons. intros H.
  apply andb_true_iff in H. destruct H as [H _].
  destruct y as [| | |[| | |]| | |]; simpl in H; try discriminate H.
  apply String.eqb_eq in H. subst s.
  simpl. rewrite andb_true_r. reflexivity.
Qed.

Lemma mutation_queries (m : mutation) (w : world) :
  queries (after (run_mutation m) w)
  = match answer (mutation_request m w) w with
    | Fulfilled _ => mark_invalid [VStr "watchlist"] (queries w)
    | Rejected _ => queries w
    end.
Proof.
  pose proof (run_mutation_eq m w) as H. cbv zeta in H. unfold after.
  destruct (answer (mutation_request m w) w) as [r|e].
  - rewrite H. reflexivity.
  - destruct H as [args ->]. reflexivity.
Qed.

Lemma settle_stale (a : app_query) (w : world) :
  enabled (app_options a) = true ->
  match find_query (queryKey (app_options a)) (queries w) with
  | Some st => isInvalidated st = true
  | None => True
  end ->
  settle (app_options a) w = fetch (app_options a) w.
Proof.
  intros E S. unfold settle, bind, read. rewrite E. cbv beta iota.
  destruct (find_query (queryKey (app_options a)) (queries w)) as [st|];
    [|reflexivity].
  unfold needs_fetch. rewrite S. reflexivity.
Qed.

(** X12: a successful add or remove also invalidates the watchlist status
    queries, whose keys start with "watchlist": the cached status of every
    movie is marked invalid, and the mounted status observer of a movie
    (its id being a usable one) fetches /watchlist/check again, so that the
    button of the movie page follows the change. *)
Theorem X12_success_refreshes_status
  (m : mutation) (w : world) (r : response) (i : number) (ct : content_type) :
  answer (mutation_request m w) w = Fulfilled r ->
  let w' := after (run_mutation m) w in
  let key := queryKey (useWatchlistStatus i ct) in
  find_query key (queries w') = option_map invalidate (find_query key (queries w))
  /\ (number_truthy i = true ->
      exists c rest,
        sent (settle (useWatchlistStatus i ct)) w' = c :: rest
        /\ method c = GET /\ url c = app_url (Status i ct)).
Proof.
  intros A w' key.
  assert (F : find_query key (queries w')
              = option_map invalidate (find_query key (queries w))).
  { unfold w'. rewrite mutation_queries, A.
    apply (find_query_mark key [VStr "watchlist"] true).
    intros k K. apply (head_match "watchlist" "watchlist" _ k K). }
  split; [exact F|].
  intros T.
  assert (S : settle (app_options (Status i ct)) w'
              = fetch (app_options (Status i ct)) w').
  { apply settle_stale.
    - cbn [app_options useWatchlistStatus enabled]. rewrite T.
      destruct ct; reflexivity.
    - change (queryKey (app_options (Status i ct))) with key. rewrite F.
      destruct (find_query key (queries w)); simpl; auto. }
  pose proof (fetch_sent (Status i ct) w' eq_refl) as Se. cbv zeta in Se.
  destruct (outgoing_shape (create w' GET (app_url (Status i ct)) None) w')
    as (M & U & _).
  cbn [app_options] in S, Se.
  unfold sent, emitted, after in *. rewrite S.
  destruct (run (queryFn (useWatchlistStatus i ct)) w');
    eexists _, _; (split; [exact Se|]); split; assumption.
Qed.

Lemma X12_success_refreshes_status_witness :
  let w := mkWorld None None (constant_backend (VObj [("success", VBool true)]))
             [([VStr "watchlist"; VStr "status"; VNum (Num 603); VStr "movie"],
               mkQueryState (VObj [("inWatchlist", VBool false)]) None false)]
             [] in
  let w' := after (run_mutation (Add matrix_item)) w in
  find_query (queryKey (useWatchlistStatus (Num 603) Movie)) (queries w')
  = Some (mkQueryState (VObj [("inWatchlist", VBool false)]) None true)
  /\ exists c rest,
       sent (settle (useWatchlistStatus (Num 603) Movie)) w' = c :: rest
       /\ method c = GET
       /\ url c = "/watchlist/check?tmdbId=603&contentType=movie".
Proof.
  intros w w'.
  destruct (X12_success_refreshes_status (Add matrix_item) w
              (mkResponse 200 (VObj [("success", VBool true)]))
              (Num 603) Movie eq_refl) as (F & S).
  split; [exact F | exact (S eq_refl)].
Defined.

(** X13: a watchlist mutation leaves the cached movie queries alone: the
    cache entry of every hook of hooks/useMovies (trending, details, search
    and the others) is the same before and after an add or a remove,
    whether the mutation succeeds or fails; it is not even marked
    invalid. *)
Theorem X13_mutation_keeps_movie_queries (m : mutation) (w : world) (h : hook) :
  h <> Watchlist ->
  find_query (queryKey (options h)) (queries (after (run_mutation m) w))
  = find_query (queryKey (options h)) (queries w).
Proof.
  intros N. rewrite mutation_queries.
  destruct (answer (mutation_request m w) w) as [r|e]; [|reflexivity].
  rewrite (find_query_mark (queryKey (options h)) [VStr "watchlist"] false).
  - destruct (find_query (queryKey (options h)) (queries w)); reflexivity.
  - intros k K.
    destruct h; try congruence;
      cbn [options queryKey useTrendingMovies usePopularMovies
             useTopRatedMovies useNowPlayingMovies useUpcomingMovies
             useMovieDetails useMovieCredits useMovieVideos useSimilarMovies
             useMovieRecommendations useSearchMovies useDiscoverMovies
             useMovieGenres] in K;
      rewrite (head_match _ "watchlist" _ k K); reflexivity.
Qed.

Lemma X13_mutation_keeps_movie_queries_witness :
  let w := mkWorld None None (constant_backend VNull)
             [([VStr "movie"; VNum (Num 603)],
               mkQueryState (VObj [("title", VStr "The Matrix")]) None false)]
             [] in
  find_query (queryKey (options (Details (Num 603))))
             (queries (after (run_mutation (Remove "w1")) w))
  = Some (mkQueryState (VObj [("title", VStr "The Matrix")]) None false).
Proof.
  intros w.
  rewrite (X13_mutation_keeps_movie_queries (Remove "w1") w
             (Details (Num 603))); [reflexivity | discriminate].
Defined.

End InvalidationFacts.

(* ===================================================================== *)
(** ** The buttons of the movie page and of the watchlist page *)
(* ===================================================================== *)

Section ButtonFacts.
Import JS Runtime Api QueryClient UseMovies UseWatchlist Routes Spec Scenario.
Import Components Props.

Lemma truthy_not_nullish (k : string) (v : value) :
  truthy (opt_field k v) = true -> nullish v = false.
Proof. destruct v; simpl; intros H; try reflexivity; discriminate H. Qed.

Lemma emitted_nothing {A : Type} (p : promise A) (w : world) (o : outcome A) :
  p w = (o, w) -> emitted p w = [].
Proof.
  intros E. unfold emitted, after. rewrite E. simpl. apply skipn_all_trace.
Qed.



(** X15: when the status says that the movie is in the watchlist but
    carries no data object, the click throws a TypeError on reading the id
    of the entry: no request is sent, no toast is shown and nothing is
    invalidated. *)
Theorem X15_toggle_without_entry_throws (movie status : value) (w : world) :
  truthy (opt_field "inWatchlist" status) = true ->
  nullish (field "data" status) = true ->
  (exists e, run (handleWatchlistToggle movie status) w = Rejected e
             /\ err_response e = None)
  /\ after (handleWatchlistToggle movie status) w = w
  /\ emitted (handleWatchlistToggle movie status) w = [].
Proof.
  intros T D.
  assert (E : exists e, handleWatchlistToggle movie status w = (Rejected e, w)
                        /\ err_response e = None).
  { unfold handleWatchlistToggle. rewrite T. unfold bind, get, member.
    rewrite (truthy_not_nullish _ _ T), D. eexists. split; reflexivity. }
  destruct E as (e & E & R).
  split; [exists e; unfold run; rewrite E; auto|].
  split; [unfold after; rewrite E; reflexivity|].
  apply (emitted_nothing _ _ _ E).
Qed.

Lemma X15_toggle_without_entry_throws_witness :
  after (handleWatchlistToggle matrix_item
           (VObj [("inWatchlist", VBool true)])) empty_token_world
  = empty_token_world
  /\ emitted (handleWatchlistToggle matrix_item
                (VObj [("inWatchlist", VBool true)])) empty_token_world = [].
Proof.
  destruct (X15_toggle_without_entry_throws matrix_item
              (VObj [("inWatchlist", VBool true)]) empty_token_world
              eq_refl eq_refl) as (_ & A & E).
  split; [exact A | exact E].
Defined.



End ButtonFacts.

(* ===================================================================== *)
(** ** What the pages show *)
(* ===================================================================== *)

Section ViewFacts.
Import JS Runtime Api QueryClient UseMovies UseWatchlist Routes Spec Scenario.
Import Components Props.

Lemma hash_eqb_refl : forall v : value, hash_eqb v v = true.
Proof.
  fix IH 1. intros [| |b|[|a|z|a d k]|s|l|fs]; try reflexivity.
  - destruct b; reflexivity.
  - simpl. apply Z.eqb_refl.
  - simpl. rewrite Bool.eqb_reflx, Z.eqb_refl.
    rewrite (Decimal.internal_uint_dec_lb d d eq_refl). reflexivity.
  - simpl. apply String.eqb_refl.
  - simpl. induction l as [|x l IHl]; [reflexivity|].
    rewrite (IH x). exact IHl.
  - simpl. induction fs as [|[k x] fs IHf]; [reflexivity|].
    rewrite String.eqb_refl, (IH x). exact IHf.
Qed.

Lemma same_key_refl (k : list value) : same_key k k = true.
Proof. apply hash_eqb_refl. Qed.

(** A first fetch that fails, the retry included, leaves a cache entry
    without data that holds the error. *)
Lemma settle_failed (a : app_query) (w : world) (e : error) :
  enabled (app_options a) = true ->
  find_query (queryKey (app_options a)) (queries w) = None ->
  run (attempt retry (queryFn (app_options a))) w = Rejected e ->
  find_query (queryKey (app_options a))
             (queries (after (settle (app_options a)) w))
  = Some (mkQueryState VUndefined (Some e) false).
Proof.
  intros E N R.
  assert (S : settle (app_options a) w = fetch (app_options a) w)
    by (apply settle_stale; [exact E | rewrite N; exact I]).
  unfold after. rewrite S. unfold fetch.
  destruct (attempt_trace_only retry _ (app_fn_trace_only a) w) as [d D].
  unfold run in R. unfold after in D.
  destruct (attempt retry (queryFn (app_options a)) w) as [[x|e'] w1];
    cbn [fst snd] in *; [discriminate R|].
  inversion R; subst e' w1. cbn [snd queries with_queries fetched].
  unfold previous_data. cbn [queries with_trace]. rewrite N.
  apply find_query_set_query, same_key_refl.
Qed.

(** X17: a homepage row whose query fails is hidden: when the first fetch
    of the row fails, the retry included, the row renders nothing, neither
    cards nor a skeleton nor an error. *)
Theorem X17_failed_row_is_hidden (r : row) (w : world) (e : error) :
  find_query (queryKey (row_query r)) (queries w) = None ->
  run (attempt retry (queryFn (row_query r))) w = Rejected e ->
  home_row r (after (settle (row_query r)) w) = Fulfilled None.
Proof.
  intros N R.
  pose proof (settle_failed (OfHook (row_hook r)) w e) as F.
  cbn [app_options] in F. fold (row_query r) in F.
  specialize (F ltac:(destruct r; reflexivity) N R).
  unfold home_row, useQuery. rewrite F. reflexivity.
Qed.

Lemma X17_failed_row_is_hidden_witness :
  home_row TrendingRow (after (settle (row_query TrendingRow)) offline_world)
  = Fulfilled None.
Proof.
  exact (X17_failed_row_is_hidden TrendingRow offline_world offline_error
           eq_refl eq_refl).
Defined.

(** X18: a watchlist that cannot be loaded looks like an empty one: when
    the first fetch of the watchlist fails, the retry included, a signed-in
    user sees the "Your watchlist is empty" screen, the same screen as for a
    watchlist without items. *)
Theorem X18_failed_watchlist_looks_empty (w : world) (e : error) :
  find_query watchlist_key (queries w) = None ->
  run (attempt retry (queryFn useWatchlist)) w = Rejected e ->
  WatchlistPage true (after (settle useWatchlist) w) = WatchlistEmpty.
Proof.
  intros N R.
  pose proof (settle_failed (OfHook Watchlist) w e eq_refl N R) as F.
  cbn [app_options options] in F.
  unfold WatchlistPage, useQuery.
  change (queryKey useWatchlist) with watchlist_key in *. rewrite F.
  reflexivity.
Qed.

Lemma X18_failed_watchlist_looks_empty_witness :
  WatchlistPage true (after (settle useWatchlist) offline_world)
  = WatchlistEmpty.
Proof.
  exact (X18_failed_watchlist_looks_empty offline_world offline_error
           eq_refl eq_refl).
Defined.

(** X19: a movie that cannot be loaded is shown as not found: for a usable
    id, when the first fetch of the details fails, the retry included, the
    movie page renders "Movie Not Found", as it does for an id that does not
    exist. *)
Theorem X19_failed_details_shown_as_not_found
  (id : string) (w : world) (e : error) :
  number_truthy (parseInt id) = true ->
  find_query (queryKey (useMovieDetails (parseInt id))) (queries w) = None ->
  run (attempt retry (queryFn (useMovieDetails (parseInt id)))) w = Rejected e ->
  MovieDetailPage id (after (settle (useMovieDetails (parseInt id))) w)
  = MovieNotFound.
Proof.
  intros T N R.
  pose proof (settle_failed (OfHook (Details (parseInt id))) w e T N R) as F.
  cbn [app_options options] in F.
  unfold MovieDetailPage, useQuery. rewrite F. reflexivity.
Qed.

Lemma X19_failed_details_shown_as_not_found_witness :
  MovieDetailPage "603"
    (after (settle (useMovieDetails (parseInt "603"))) offline_world)
  = MovieNotFound.
Proof.
  exact (X19_failed_details_shown_as_not_found "603" offline_world
           offline_error eq_refl eq_refl eq_refl).
Defined.















Lemma split_at_parts (sep : ascii) (s : string) :
  lacks sep (fst (split_at sep s)) = true
  /\ s = (fst (split_at sep s)
          ++ match snd (split_at sep s) with
             | Some rest => String sep rest
             | None => EmptyString
             end)%string.
Proof.
  induction s as [|c s [L E]]; [split; reflexivity|].
  simpl. destruct (Ascii.eqb c sep) eqn:C.
  - apply Ascii.eqb_eq in C. subst c. split; reflexivity.
  - destruct (split_at sep s) as [a b]; simpl in *.
    rewrite C, L. split; [reflexivity | congruence].
Qed.

(** X23: the year on a card is the part of the release date before its
    first dash: it holds no dash, the date starts with it, and a date
    without dash is shown whole; a movie without release date shows no year
    and does not break the card. *)
Theorem X23_release_year_is_first_part (s : string) :
  (exists y,
      release_year (VStr s) = Fulfilled (VStr y)
      /\ lacks "-" y = true
      /\ (s = y \/ exists rest, s = (y ++ String "-" rest)%string))
  /\ release_year VUndefined = Fulfilled VUndefined
  /\ release_year VNull = Fulfilled VUndefined.
Proof.
  split; [|split; reflexivity].
  destruct (split_at_parts "-" s) as [L E].
  exists (fst (split_at "-" s)). split; [reflexivity|]. split; [exact L|].
  destruct (snd (split_at "-" s)) as [rest|].
  - right. exists rest. exact E.
  - left. rewrite E at 1. clear E L.
    induction (fst (split_at "-" s)) as [|c y IH]; simpl; congruence.
Qed.

End ViewFacts.
